(** * TypeDoc converter (src/td/converter/Converter.ts)

  A shallow embedding of the [td.Converter] class: the [convert] pipeline
  with its event dispatches, and the [ts.CompilerHost] callbacks the class
  implements ([getSourceFile], [getDefaultLibFilename],
  [getCurrentDirectory], [getCanonicalFileName], [writeFile]).

  JavaScript values are modelled as follows.
  - strings: [string], one character for each code unit, which is below
    256; [undefined | string] is [option string];
  - a [string[]] object: a location in a heap [gmap loc (list string)],
    so that two references to one array see each other's writes;
  - an object used as a dictionary ([project.reflections]): its own
    properties as a [gmap string _] and the enumerable keys it inherits
    as a [gset string];
  - a call into code outside the class (TypeScript front-end, listeners
    registered by plugins, the system object [ts.sys]): a function on the
    store that returns normally or throws. *)

From Stdlib Require Import ZArith Ascii.
From stdpp Require Import gmap strings list fin_maps sorting.

Local Open Scope Z_scope.
Local Open Scope string_scope.
Local Open Scope list_scope.

(** ** JavaScript strings *)

Module JsString.

(** [String.prototype.toLowerCase] on one code unit. The strings of this
    development are sequences of code units below 256, one per character
    of [string]. On such strings the lower-case mapping of the Unicode
    character database works unit by unit and without context: the
    letters A-Z and the capital letters of Latin-1 (U+00C0 to U+00DE, but
    not the multiplication sign U+00D7) go to the unit 32 above, every
    other unit is left as it is. The code units whose lower case is longer
    or depends on the context (U+0130, the final sigma) are all above
    255: names that hold them are not covered here. *)
Definition lowerCodeUnit (c : ascii) : ascii :=
  let n := N_of_ascii c in
  if (((65 <=? n) && (n <=? 90))
      || ((192 <=? n) && (n <=? 214))
      || ((216 <=? n) && (n <=? 222)))%N
  then ascii_of_N (n + 32) else c.

Fixpoint toLowerCase (s : string) : string :=
  match s with
  | EmptyString => EmptyString
  | String c s' => String (lowerCodeUnit c) (toLowerCase s')
  end.

Definition is_slash (c : ascii) : bool := Ascii.eqb c "/"%char.

(** [s.split('/')]: the pieces between the slashes; never empty, the
    empty string gives one empty piece. *)
Fixpoint split (s : string) : list string :=
  match s with
  | EmptyString => [EmptyString]
  | String c s' =>
      if is_slash c then EmptyString :: split s'
      else match split s' with
           | h :: t => String c h :: t
           | [] => [String c EmptyString]
           end
  end.

(** [parts.join('/')]. *)
Definition join (parts : list string) : string := String.concat "/" parts.

(** Truthiness of a string: every string but the empty one. *)
Definition truthy (s : string) : bool :=
  match s with EmptyString => false | String _ _ => true end.

(** [s.charAt(0) === '/'] *)
Definition startsWithSlash (s : string) : bool :=
  match s with String c _ => is_slash c | EmptyString => false end.

(** [s.substr(-1) === '/'] *)
Fixpoint endsWithSlash (s : string) : bool :=
  match s with
  | EmptyString => false
  | String c EmptyString => is_slash c
  | String _ s' => endsWithSlash s'
  end.

End JsString.

(** ** Node's [path] module, POSIX flavour

  [Converter.getDefaultLibFilename] composes its result with [Path.join].
  The functions below follow lib/path.js of Node. *)

Module Path.

(** The loop of [normalizeArray] runs from the last part to the first and
    counts in [up] the parts still to be dropped for the [..] seen so far.
    The result is the kept parts and the final [up]. *)
Fixpoint normalizeArray_loop (parts : list string) : list string * nat :=
  match parts with
  | [] => ([], 0%nat)
  | p :: rest =>
      let '(kept, up) := normalizeArray_loop rest in
      if String.eqb p "." then (kept, up)
      else if String.eqb p ".." then (kept, S up)
      else match up with
           | S up' => (kept, up')
           | O => (p :: kept, O)
           end
  end.

Definition normalizeArray (parts : list string) (allowAboveRoot : bool)
  : list string :=
  let '(kept, up) := normalizeArray_loop parts in
  if allowAboveRoot then replicate up ".." ++ kept else kept.

Definition isAbsolute (path : string) : bool := JsString.startsWithSlash path.

Definition normalize (path : string) : string :=
  let isAbs := isAbsolute path in
  let trailingSlash := JsString.endsWithSlash path in
  let path1 :=
    JsString.join
      (normalizeArray (filter (fun p => JsString.truthy p = true)
                              (JsString.split path))
                      (negb isAbs)) in
  let path2 :=
    if negb (JsString.truthy path1) && negb isAbs then "." else path1 in
  let path3 :=
    if JsString.truthy path2 && trailingSlash then path2 +:+ "/" else path2 in
  (if isAbs then "/" else "") +:+ path3.

(** [Path.join(p1, ..., pn)]: the non-empty arguments joined by a slash,
    then normalized. *)
Definition join (paths : list string) : string :=
  normalize
    (JsString.join (filter (fun p => JsString.truthy p = true) paths)).



End Path.

(** ** Values exchanged with the TypeScript front-end *)

(** [ts.ScriptTarget]: a number. *)
Definition ScriptTarget : Type := Z.

(** An exception value, with the two properties [getSourceFile] reads:
  [e.number] (absent on most errors) and [e.message]. *)
Record Exn : Type := { number : option Z; message : string }.

Definition TypeError (msg : string) : Exn :=
  {| number := None; message := msg |}.

(** How a call ends: it returns a value or it throws. *)
Inductive Outcome (A : Type) : Type :=
  | Ok (a : A)
  | Throw (e : Exn).
Arguments Ok {A} a.
Arguments Throw {A} e.

Definition is_Ok {A : Type} (o : Outcome A) : Prop :=
  match o with Ok _ => True | Throw _ => False end.

(** [td.SourceFileMode] *)
Inductive SourceFileMode : Type := File | Modules.

(** [td.IOptions]; every member is optional. *)
Record IOptions : Type := {
  name : option string;
  mode : option SourceFileMode;
  externalPattern : option string;
  includeDeclarations : option bool;
  excludeExternals : option bool
}.

(** The members of [ts.CompilerOptions] the converter reads. *)
Record CompilerOptions : Type := {
  target : option ScriptTarget;
  charset : option string
}.

(** [td.IApplication] *)
Record IApplication : Type := {
  options : IOptions;
  compilerOptions : CompilerOptions
}.

(** Heap locations of [string[]] objects. *)
Definition loc : Type := positive.

(** ** The monad of the embedding: state and exceptions

  A computation runs on a world [W], changes it, and returns a value or
  throws; what was written to the world before a [throw] stays written. *)

Section Monad.

Context {W : Type}.

Definition M (A : Type) : Type := W -> Outcome A * W.

Definition ret {A : Type} (a : A) : M A := fun w => (Ok a, w).

Definition bind {A B : Type} (m : M A) (k : A -> M B) : M B :=
  fun w =>
    match m w with
    | (Ok a, w') => k a w'
    | (Throw e, w') => (Throw e, w')
    end.

Definition throw {A : Type} (e : Exn) : M A := fun w => (Throw e, w).

(** [try { m } catch (e) { h e }] *)
Definition tryCatch {A : Type} (m : M A) (h : Exn -> M A) : M A :=
  fun w =>
    match m w with
    | (Ok a, w') => (Ok a, w')
    | (Throw e, w') => h e w'
    end.

(** [list.forEach(body)], and the body of a [for] loop run on each
    element of a list in turn. *)
Fixpoint forEachM {A : Type} (l : list A) (body : A -> M unit) : M unit :=
  match l with
  | [] => ret tt
  | x :: l' => bind (body x) (fun _ => forEachM l' body)
  end.

End Monad.

Arguments M : clear implicits.

Declare Scope conv_scope.
Delimit Scope conv_scope with conv.
Notation "x <- m ;; k" := (bind m (fun x => k))
  (at level 100, m at next level, right associativity) : conv_scope.
Notation "m ;; k" := (bind m (fun _ => k))
  (at level 100, right associativity) : conv_scope.

(** ** The converter *)

Section Model.

Context {Reflection SourceFile Diagnostic Ext : Type}.

(** [ts.TypeChecker] and [ts.Program], reduced to what [convert] asks of
    them. The three accessors of the program and the one of the checker
    are read as fields: a program is taken to answer them, as the
    front-end's own do, and a front-end object whose accessor throws is
    not described here. The same holds of the two constructors [convert]
    calls, [new ProjectReflection] and [new Context]. The calls that run
    code of plugins and of the visitor are the ones that may throw:
    [ts.createProgram], [visit] and the listeners. *)
Record TypeChecker : Type := { checker_getDiagnostics : list Diagnostic }.

Record Program : Type := {
  getSourceFiles : list SourceFile;
  getDiagnostics : list Diagnostic;
  getTypeChecker : TypeChecker
}.

(** An object used as a dictionary: its own properties, and the
    enumerable property names it inherits from its prototype chain. *)
Record JsObject : Type := {
  own : gmap string Reflection;
  inherited : gset string
}.

(** [td.ProjectReflection]: its name and the index of all reflections by
    id. *)
Record ProjectReflection : Type := {
  project_name : option string;
  reflections : JsObject
}.

(** [td.IConverterResult] *)
Record IConverterResult : Type := {
  project : ProjectReflection;
  errors : list Diagnostic
}.

(** The mutable state a conversion runs in. [current_project] is the
    object the local variable [project] of [convert] refers to,
    [currentDirectory] the private field of the converter, and [ext]
    whatever the code outside the class keeps: plugin fields, the file
    system, the process. *)
Record Store : Type := {
  arrays : gmap loc (list string);
  current_project : ProjectReflection;
  currentDirectory : option string;
  ext : Ext
}.

Definition set_arrays (f : gmap loc (list string) -> gmap loc (list string))
    (s : Store) : Store :=
  {| arrays := f (arrays s); current_project := current_project s;
     currentDirectory := currentDirectory s; ext := ext s |}.

Definition set_current_project (p : ProjectReflection) (s : Store) : Store :=
  {| arrays := arrays s; current_project := p;
     currentDirectory := currentDirectory s; ext := ext s |}.

Definition set_currentDirectory (d : option string) (s : Store) : Store :=
  {| arrays := arrays s; current_project := current_project s;
     currentDirectory := d; ext := ext s |}.

(** A call that leaves the class: it may change the store and may throw. *)
Definition External (A : Type) : Type := Store -> Outcome A * Store.

(** What the class does that is visible from outside, in order. The key
    in [ADispatch] is the property name the reflection was read under; it
    is kept for the proofs and is not passed to the listeners. *)
Inductive Action : Type :=
  | ACreateProgram (fileNames : list string)
  | ADispatch (event : string) (key : option string) (arg : option Reflection)
  | AVisit (sourceFile : SourceFile)
  | AOnError (msg : string)
  | ASysGetCurrentDirectory.

Record World : Type := { store : Store; trace : list Action }.

Definition gets {A : Type} (f : Store -> A) : M World A :=
  fun w => (Ok (f (store w)), w).

Definition modify (f : Store -> Store) : M World unit :=
  fun w => (Ok tt, {| store := f (store w); trace := trace w |}).

Definition emit (a : Action) : M World unit :=
  fun w => (Ok tt, {| store := store w; trace := trace w ++ [a] |}).

Definition call {A : Type} (f : External A) : M World A :=
  fun w =>
    let '(o, s) := f (store w) in
    (o, {| store := s; trace := trace w |}).

(** *** Arrays of strings in the heap *)

(** [a.length]; a reference to no array throws. *)
Definition arrayLength (a : loc) : M World nat :=
  fun w =>
    match arrays (store w) !! a with
    | Some l => (Ok (length l), w)
    | None => (Throw (TypeError "Cannot read property 'length'"), w)
    end.

(** [a[i]], read to be passed on as a string: [None] is [undefined]. *)
Definition arrayGet (a : loc) (i : nat) : M World (option string) :=
  fun w =>
    match arrays (store w) !! a with
    | Some l => (Ok (l !! i), w)
    | None => (Throw (TypeError "Cannot read property of undefined"), w)
    end.

(** [a[i] = v]. A write at [length a] appends. A write further out would
    leave holes, which a list of strings cannot hold: such a write is
    recorded as no change; [convert] never makes one. *)
Definition array_write (l : list string) (i : nat) (v : string)
  : list string :=
  if decide (i = length l) then l ++ [v] else <[i := v]> l.

Definition arraySet (a : loc) (i : nat) (v : string) : M World unit :=
  fun w =>
    match arrays (store w) !! a with
    | Some l =>
        (Ok tt, {| store := set_arrays <[a := array_write l i v]> (store w);
                   trace := trace w |})
    | None => (Throw (TypeError "Cannot set property of undefined"), w)
    end.

(** *** Property enumeration

    [for (var k in o)] collects the enumerable property names of [o] when
    the loop starts, own ones and inherited ones, each once. Before each
    turn the engine drops a name that is no longer a property of [o];
    names added to [o] after the loop started are not in the collection.

    The engine visits integer-like names in ascending order, then the
    other own names in the order of their creation, then the inherited
    ones. An index by name alone does not record that order: the list
    below holds the same names in the order of the map, and no statement
    of this development says in which order two reflections are
    resolved. *)
Definition enumerableKeys (o : JsObject) : list string :=
  elements (dom (own o)) ++ elements (inherited o ∖ dom (own o)).

(** [k in o] *)
Definition hasProperty (o : JsObject) (k : string) : bool :=
  bool_decide (k ∈ dom (own o)) || bool_decide (k ∈ inherited o).

(** [o.hasOwnProperty(k)] *)
Definition hasOwnProperty (o : JsObject) (k : string) : bool :=
  bool_decide (k ∈ dom (own o)).

(** *** Code outside the class

    The TypeScript front-end ([ts]), its system object ([ts.sys]), the
    reflection classes, the node visitor and the listeners the plugins
    registered. *)
Record Environment : Type := {
  application : IApplication;
  (** [ts.ScriptTarget.ES6] *)
  ES6 : ScriptTarget;
  (** [td.tsPath] *)
  tsPath : string;
  ts_normalizeSlashes : string -> string;
  ts_normalizePath : string -> string;
  ts_getDirectoryPath : string -> string;
  (** [ts.createProgram(fileNames, options, host)], given the reference
      to the array *)
  ts_createProgram : loc -> External Program;
  ts_createSourceFile : string -> string -> ScriptTarget -> string -> SourceFile;
  (** [ts.sys.readFile(fileName, encoding)]: the text, or [undefined]
      when there is no such file *)
  sys_readFile : string -> option string -> External (option string);
  sys_getCurrentDirectory : External string;
  sys_useCaseSensitiveFileNames : bool;
  sys_newLine : string;
  (** [new ProjectReflection(name)] *)
  new_ProjectReflection : option string -> ProjectReflection;
  (** [visit(context, sourceFile)] *)
  visit : SourceFile -> External unit;
  (** what [PluginHost.dispatch] runs for an event: the listeners
      registered for it, with the third argument of the dispatch when
      there is one *)
  listeners : string -> option Reflection -> External unit
}.

End Model.

Arguments TypeChecker : clear implicits.
Arguments Program : clear implicits.
Arguments JsObject : clear implicits.
Arguments ProjectReflection : clear implicits.
Arguments IConverterResult : clear implicits.
Arguments Store : clear implicits.
Arguments External : clear implicits.
Arguments Action : clear implicits.
Arguments World : clear implicits.
Arguments Environment : clear implicits.

Section Converter.

Context {Reflection SourceFile Diagnostic Ext : Type}.
Variable env : Environment Reflection SourceFile Diagnostic Ext.

Local Abbreviation World := (World Reflection SourceFile Ext).
Local Abbreviation Store := (Store Reflection Ext).
Local Abbreviation External := (External Reflection Ext).
Local Open Scope conv_scope.

(** Return code of [ts.sys.readFile] when the file encoding is
    unsupported. *)
Definition ERROR_UNSUPPORTED_FILE_ENCODING : Z := -2147024809.

Definition EVENT_BEGIN : string := "begin".
Definition EVENT_END : string := "end".
Definition EVENT_FILE_BEGIN : string := "fileBegin".
Definition EVENT_CREATE_DECLARATION : string := "createDeclaration".
Definition EVENT_CREATE_SIGNATURE : string := "createSignature".
Definition EVENT_CREATE_PARAMETER : string := "createParameter".
Definition EVENT_CREATE_TYPE_PARAMETER : string := "createTypeParameter".
Definition EVENT_FUNCTION_IMPLEMENTATION : string := "functionImplementation".
Definition EVENT_RESOLVE_BEGIN : string := "resolveBegin".
Definition EVENT_RESOLVE : string := "resolveReflection".
Definition EVENT_RESOLVE_END : string := "resolveEnd".

(** [this.dispatch(event, context)] and
    [this.dispatch(event, context, reflection)]: the context gives the
    listeners the whole store. *)
Definition dispatch (event : string) (key : option string)
    (arg : option Reflection) : M World unit :=
  emit (ADispatch event key arg) ;;
  call (listeners env event arg).

(** Lines 263-265: every element of the array is replaced, in the array
    itself, by its normalized form. *)
Definition normalizeFileName (fileName : string) : string :=
  ts_normalizePath env (ts_normalizeSlashes env fileName).

Definition normalizeFileNames (fileNames : loc) : M World unit :=
  c <- arrayLength fileNames ;;
  forEachM (seq 0 c)
    (fun i =>
       x <- arrayGet fileNames i ;;
       match x with
       | Some fileName => arraySet fileNames i (normalizeFileName fileName)
       | None => throw (TypeError "Cannot read property 'replace' of undefined")
       end).

(** One turn of the loop of lines 283-286, for the name [id] of the
    collection: the engine skips a name that is no longer a property of
    the index, line 284 skips a name that is not an own property, and line
    285 dispatches the value the index holds under the name at that
    moment. *)
Definition resolveReflection (id : string) : M World unit :=
  o <- gets (fun s => reflections (current_project s)) ;;
  if negb (hasProperty o id) then ret tt
  else if negb (hasOwnProperty o id) then ret tt
  else dispatch EVENT_RESOLVE (Some id) (own o !! id).

(** Lines 283-286: the names are collected once, when the loop starts;
    the index itself is read again at every turn. *)
Definition resolveReflections : M World unit :=
  ids <- gets (fun s => enumerableKeys (reflections (current_project s))) ;;
  forEachM ids resolveReflection.

(** Lines 262-295. The context object built on line 275 holds references
    only: what the listeners and the visitor reach through it is the store.
    The trace records the content of the array at the moment the program is
    created, and the result holds the project as it is on return. *)
Definition convert (fileNames : loc) : M World (IConverterResult Reflection Diagnostic) :=
  normalizeFileNames fileNames ;;
  let settings := options (application env) in
  names <- gets (fun s => default [] (arrays s !! fileNames)) ;;
  emit (ACreateProgram names) ;;
  program <- call (ts_createProgram env fileNames) ;;
  let checker := getTypeChecker program in
  modify (set_current_project (new_ProjectReflection env (name settings))) ;;
  let errors := getDiagnostics program in
  let errors := errors ++ checker_getDiagnostics checker in
  dispatch EVENT_BEGIN None None ;;
  forEachM (getSourceFiles program)
    (fun sourceFile => emit (AVisit sourceFile) ;; call (visit env sourceFile)) ;;
  dispatch EVENT_RESOLVE_BEGIN None None ;;
  resolveReflections ;;
  dispatch EVENT_RESOLVE_END None None ;;
  dispatch EVENT_END None None ;;
  project <- gets current_project ;;
  ret {| errors := errors; project := project |}.

(** Lines 303-306. [target] may be undefined, which is not equal to a
    number. *)
Definition getDefaultLib : string :=
  match target (compilerOptions (application env)) with
  | Some t => if (t =? ES6 env)%Z then "lib.es6.d.ts" else "lib.d.ts"
  | None => "lib.d.ts"
  end.

(** The message [getSourceFile] passes to [onError] for the exception
    [e]. *)
Definition readErrorMessage (e : Exn) : string :=
  if bool_decide (number e = Some ERROR_UNSUPPORTED_FILE_ENCODING)
  then "Unsupported file encoding"
  else message e.

(** Lines 325-336. A call of [onError] is recorded in the trace with the
    message it is given. *)
Definition getSourceFile (filename : string) (languageVersion : ScriptTarget)
    (onError : option (string -> External unit))
  : M World (option SourceFile) :=
  text <- tryCatch
            (call (sys_readFile env filename
                     (charset (compilerOptions (application env)))))
            (fun e =>
               match onError with
               | Some cb =>
                   emit (AOnError (readErrorMessage e)) ;;
                   call (cb (readErrorMessage e))
               | None => ret tt
               end ;;
               ret (Some "")) ;;
  ret (match text with
       | Some t => Some (ts_createSourceFile env filename t languageVersion "0")
       | None => None
       end).

(** Lines 346-350. *)
Definition getDefaultLibFilename : string :=
  let lib := getDefaultLib in
  let path := ts_getDirectoryPath env (ts_normalizePath env (tsPath env)) in
  Path.join [path; "bin"; lib].

(** Lines 360-362: [this.currentDirectory || (this.currentDirectory =
    ts.sys.getCurrentDirectory())]. The field counts as set when it holds
    a truthy value. *)
Definition getCurrentDirectory : M World string :=
  cached <- gets currentDirectory ;;
  match cached with
  | Some d =>
      if JsString.truthy d then ret d
      else
        emit ASysGetCurrentDirectory ;;
        d' <- call (sys_getCurrentDirectory env) ;;
        modify (set_currentDirectory (Some d')) ;;
        ret d'
  | None =>
      emit ASysGetCurrentDirectory ;;
      d' <- call (sys_getCurrentDirectory env) ;;
      modify (set_currentDirectory (Some d')) ;;
      ret d'
  end.

(** Lines 372-374. *)
Definition useCaseSensitiveFileNames : bool :=
  sys_useCaseSensitiveFileNames env.

(** Lines 385-387. *)
Definition getCanonicalFileName (fileName : string) : string :=
  if sys_useCaseSensitiveFileNames env then fileName
  else JsString.toLowerCase fileName.

(** Lines 397-399. *)
Definition getNewLine : string := sys_newLine env.

(** Line 414: the body is empty. *)
Definition writeFile (fileName data : string) (writeByteOrderMark : bool)
    (onError : option (string -> External unit)) : M World unit :=
  ret tt.

End Converter.

(** ** What an observer of a conversion sees *)

Section Observations.

Context {Reflection SourceFile : Type}.

Local Abbreviation Action := (Action Reflection SourceFile).

(** The dispatch of the resolve event for the reflection read under a
property name. *)
Definition resolveAction (kr : string * option Reflection) : Action :=
  ADispatch EVENT_RESOLVE (Some kr.1) kr.2.

(** The dispatches and visits of a conversion that went through, after
the program was created: the source files visited and the reflections
resolved are those of the two lists, in their order. *)
Definition conversionTrace (sourceFiles : list SourceFile)
    (resolved : list (string * option Reflection)) : list Action :=
  [ADispatch EVENT_BEGIN None None]
  ++ (AVisit <$> sourceFiles)
  ++ [ADispatch EVENT_RESOLVE_BEGIN None None]
  ++ (resolveAction <$> resolved)
  ++ [ADispatch EVENT_RESOLVE_END None None; ADispatch EVENT_END None None].

Definition isDispatch (event : string) (a : Action) : Prop :=
  match a with
  | ADispatch e _ _ => e = event
  | _ => False
  end.

Definition isVisit (a : Action) : Prop :=
  match a with
  | AVisit _ => True
  | _ => False
  end.

(** In the trace [t], whatever satisfies [P] comes before whatever
satisfies [Q]. *)
Definition before (P Q : Action -> Prop) (t : list Action) : Prop :=
  forall (i j : nat) (a b : Action),
    t !! i = Some a -> t !! j = Some b -> P a -> Q b -> (i < j)%nat.

(** The place of an action in the pipeline of [convert]. *)
Definition phase (a : Action) : nat :=
  match a with
  | ACreateProgram _ => 0
  | ADispatch e _ _ =>
      if String.eqb e EVENT_BEGIN then 1
      else if String.eqb e EVENT_RESOLVE_BEGIN then 3
      else if String.eqb e EVENT_RESOLVE then 4
      else if String.eqb e EVENT_RESOLVE_END then 5
      else if String.eqb e EVENT_END then 6
      else 7
  | AVisit _ => 2
  | AOnError _ => 7
  | ASysGetCurrentDirectory => 7
  end%nat.

Definition isResolveOf (id : string) (a : Action) : bool :=
  match a with
  | ADispatch e (Some k) _ => String.eqb e EVENT_RESOLVE && String.eqb k id
  | _ => false
  end.

(** How many times the resolve event was dispatched for the property name
[id] of the index. The listeners do not see the name: they see the
reflection, which [dispatchCount] counts. *)
Definition resolveCount (id : string) (t : list Action) : nat :=
  length (List.filter (isResolveOf id) t).



Definition isSysGetCurrentDirectory (a : Action) : bool :=
  match a with
  | ASysGetCurrentDirectory => true
  | _ => false
  end.

(** How many times the system was asked for the current directory. *)
Definition sysCalls (t : list Action) : nat :=
  length (List.filter isSysGetCurrentDirectory t).

(** The actions of a trace come in the order of the pipeline. *)
Definition phase_le (a b : Action) : Prop := (phase a <= phase b)%nat.

End Observations.

Section Properties.

Context {Reflection SourceFile Ext : Type}.

(** A computation that never throws. *)
Definition total {A : Type} (m : M (World Reflection SourceFile Ext) A) : Prop :=
  forall w, is_Ok (m w).1.

(** A computation that keeps a property of the store, whether it returns
or throws. *)
Definition preserves (J : Store Reflection Ext -> Prop) {A : Type}
    (m : M (World Reflection SourceFile Ext) A) : Prop :=
  forall w, J (store w) -> J (store (m w).2).

End Properties.

(** ** A small installation to run the converter on

Reflections are their own names, a source file is its name and text, a
diagnostic is its message, and the state of the collaborators is a list of
names a plugin may take notes in. *)

Definition demoApplication : IApplication :=
  {| options := {| name := Some "demo"; mode := Some Modules;
                   externalPattern := None; includeDeclarations := None;
                   excludeExternals := None |};
     compilerOptions := {| target := Some 2; charset := None |} |}.

(** [path.replace(/\\/g, "/")] *)
Fixpoint backslashesToSlashes (s : string) : string :=
  match s with
  | EmptyString => EmptyString
  | String c s' =>
      String (if Ascii.eqb c (ascii_of_nat 92) then "/"%char else c)
        (backslashesToSlashes s')
  end.

Definition demoIndex (names : list string) : JsObject string :=
  {| own := list_to_map ((fun n => (n, n)) <$> names); inherited := ∅ |}.

Definition setIndex (f : gmap string string -> gmap string string)
    (s : Store string (list string)) : Store string (list string) :=
  set_current_project
    {| project_name := project_name (current_project s);
       reflections :=
         {| own := f (own (reflections (current_project s)));
            inherited := inherited (reflections (current_project s)) |} |}
    s.

(** Listeners that do nothing. *)
Definition quietListeners (event : string) (arg : option string)
    : External string (list string) unit :=
  fun s => (Ok tt, s).

(** A plugin that creates a reflection named [late] whenever a reflection
is resolved. *)
Definition addingListeners (event : string) (arg : option string)
    : External string (list string) unit :=
  fun s =>
    if String.eqb event EVENT_RESOLVE
    then (Ok tt, setIndex <["late" := "late"]> s)
    else (Ok tt, s).


(** [noteIndex s] writes down the names the index holds in [s]. *)
Definition noteIndex (s : Store string (list string))
    : Store string (list string) :=
  {| arrays := arrays s; current_project := current_project s;
     currentDirectory := currentDirectory s;
     ext := elements (dom (own (reflections (current_project s)))) |}.

(** A plugin that writes down, when the resolve-begin event is dispatched,
the names the index holds at that moment, and that removes every other
reflection from the index when a reflection is resolved. *)
Definition pruningListeners (event : string) (arg : option string)
    : External string (list string) unit :=
  fun s =>
    if String.eqb event EVENT_RESOLVE_BEGIN then (Ok tt, noteIndex s)
    else
      match arg with
      | Some r =>
          if String.eqb event EVENT_RESOLVE
          then (Ok tt, setIndex (fun _ => {[r := r]}) s)
          else (Ok tt, s)
      | None => (Ok tt, s)
      end.

Definition demoReadFile (fileName : string) (encoding : option string)
    : External string (list string) (option string) :=
  fun s =>
    if String.eqb fileName "missing.ts" then (Ok None, s)
    else if String.eqb fileName "binary.ts" then
      (Throw {| number := Some ERROR_UNSUPPORTED_FILE_ENCODING;
                message := "The parameter is incorrect." |}, s)
    else if String.eqb fileName "locked.ts" then
      (Throw {| number := None; message := "EACCES: permission denied" |}, s)
    else (Ok (Some "export var x;"), s).

Definition demoEnv
    (ls : string -> option string -> External string (list string) unit)
    (cwd : string)
    : Environment string (string * string) string (list string) :=
  {| application := demoApplication;
     ES6 := 2;
     tsPath := "/usr/lib/node_modules/typescript/bin";
     ts_normalizeSlashes := backslashesToSlashes;
     ts_normalizePath := Path.normalize;
     ts_getDirectoryPath :=
       fun p => JsString.join (removelast (JsString.split p));
     ts_createProgram :=
       fun l s =>
         (Ok {| getSourceFiles :=
                  (fun f => (f, "export var x;")) <$> default [] (arrays s !! l);
                getDiagnostics := ["a.ts(1,1): error TS1005"];
                getTypeChecker :=
                  {| checker_getDiagnostics := ["a.ts(2,3): error TS2322"] |} |},
          s);
     ts_createSourceFile := fun f text _ _ => (f, text);
     sys_readFile := demoReadFile;
     sys_getCurrentDirectory := fun s => (Ok cwd, s);
     sys_useCaseSensitiveFileNames := false;
     sys_newLine := String (ascii_of_nat 10) EmptyString;
     new_ProjectReflection :=
       fun n => {| project_name := n; reflections := demoIndex [] |};
     visit := fun sf s => (Ok tt, setIndex <[sf.1 := sf.1]> s);
     listeners := ls |}.

Definition demoFiles : list string := ["src\a.ts"; "./lib/../b.ts"].

(** A world with one array, at location 1, a project with the given
index, a converter that has cached nothing, and an empty trace. *)
Definition demoWorld (files : list string) (index : JsObject string)
    : World string (string * string) (list string) :=
  {| store := {| arrays := {[1%positive := files]};
                 current_project :=
                   {| project_name := None; reflections := index |};
                 currentDirectory := None;
                 ext := [] |};
     trace := [] |}.

Definition quietEnv := demoEnv quietListeners "/home/user".
Definition addingEnv := demoEnv addingListeners "/home/user".
Definition pruningEnv := demoEnv pruningListeners "/home/user".

Definition twoReflections := demoWorld demoFiles (demoIndex ["1"; "2"]).
Definition freshWorld := demoWorld demoFiles (demoIndex []).

(** ** The parameters of the converter *)

(** The members of [td.ParameterType] the converter uses. *)
Inductive ParameterType : Type := ParameterType_Map | ParameterType_Boolean.

(** [td.IParameter], with the members the converter sets; a member that is
not set is [None], and the map of a parameter without one is empty. *)
Module IParameter.

Record t : Type := {
  name : string;
  help : option string;
  key : option string;
  type : option ParameterType;
  map : list (string * SourceFileMode);
  defaultValue : option SourceFileMode
}.

End IParameter.

(** Lines 229-254: [super.getParameters().concat([...])], where
[inherited] is what [super.getParameters()] returns. *)
Definition getParameters (inherited : list IParameter.t) : list IParameter.t :=
  inherited ++
  [ {| IParameter.name := "name";
       IParameter.help :=
         Some "Set the name of the project that will be used in the header of the template.";
       IParameter.key := None; IParameter.type := None;
       IParameter.map := []; IParameter.defaultValue := None |};
    {| IParameter.name := "mode";
       IParameter.help :=
         Some "Specifies the output mode the project is used to be compiled with: 'file' or 'modules'";
       IParameter.key := None; IParameter.type := Some ParameterType_Map;
       IParameter.map := [("file", File); ("modules", Modules)];
       IParameter.defaultValue := Some Modules |};
    {| IParameter.name := "externalPattern";
       IParameter.help := None;
       IParameter.key :=
         Some "Define a pattern for files that should be considered being external.";
       IParameter.type := None;
       IParameter.map := []; IParameter.defaultValue := None |};
    {| IParameter.name := "includeDeclarations";
       IParameter.help := Some "Turn on parsing of .d.ts declaration files.";
       IParameter.key := None; IParameter.type := Some ParameterType_Boolean;
       IParameter.map := []; IParameter.defaultValue := None |};
    {| IParameter.name := "excludeExternals";
       IParameter.help :=
         Some "Prevent externally resolved TypeScript files from being documented.";
       IParameter.key := None; IParameter.type := Some ParameterType_Boolean;
       IParameter.map := []; IParameter.defaultValue := None |} ].

(** ** More vocabulary for the properties *)

(** A capital letter among the code units below 256: A-Z, and U+00C0 to
U+00DE without the multiplication sign. *)
Definition isCapital (c : ascii) : bool :=
  let n := N_of_ascii c in
  (((65 <=? n) && (n <=? 90))
   || ((192 <=? n) && (n <=? 214))
   || ((216 <=? n) && (n <=? 222)))%N.

Fixpoint hasCapital (s : string) : bool :=
  match s with
  | EmptyString => false
  | String c s' => isCapital c || hasCapital s'
  end.

(** The events [convert] dispatches itself. *)
Definition generalEvents : list string :=
  [EVENT_BEGIN; EVENT_RESOLVE_BEGIN; EVENT_RESOLVE; EVENT_RESOLVE_END; EVENT_END].

Section MoreProperties.

Context {Reflection SourceFile Ext : Type}.

(** What [convert] itself may put in the trace: a visit, or the dispatch
of a general event, with a reflection and its name for the resolve event
and without for the others. *)
Definition ownAction (a : Action Reflection SourceFile) : Prop :=
  match a with
  | AVisit _ => True
  | ADispatch event key arg =>
      event ∈ generalEvents /\
      (event = EVENT_RESOLVE -> is_Some key /\ is_Some arg) /\
      (event <> EVENT_RESOLVE -> key = None /\ arg = None)
  | _ => False
  end.

End MoreProperties.

(** ** More installations *)

(** The installation [env] with another front-end function to create the
program. *)
Definition withCreateProgram {Reflection SourceFile Diagnostic Ext : Type}
    (f : loc -> External Reflection Ext (Program SourceFile Diagnostic))
    (env : Environment Reflection SourceFile Diagnostic Ext)
    : Environment Reflection SourceFile Diagnostic Ext :=
  {| application := application env; ES6 := ES6 env; tsPath := tsPath env;
     ts_normalizeSlashes := ts_normalizeSlashes env;
     ts_normalizePath := ts_normalizePath env;
     ts_getDirectoryPath := ts_getDirectoryPath env;
     ts_createProgram := f;
     ts_createSourceFile := ts_createSourceFile env;
     sys_readFile := sys_readFile env;
     sys_getCurrentDirectory := sys_getCurrentDirectory env;
     sys_useCaseSensitiveFileNames := sys_useCaseSensitiveFileNames env;
     sys_newLine := sys_newLine env;
     new_ProjectReflection := new_ProjectReflection env;
     visit := visit env; listeners := listeners env |}.

(** The installation [env] with another [ts.normalizePath]. *)
Definition withNormalizePath {Reflection SourceFile Diagnostic Ext : Type}
    (f : string -> string)
    (env : Environment Reflection SourceFile Diagnostic Ext)
    : Environment Reflection SourceFile Diagnostic Ext :=
  {| application := application env; ES6 := ES6 env; tsPath := tsPath env;
     ts_normalizeSlashes := ts_normalizeSlashes env;
     ts_normalizePath := f;
     ts_getDirectoryPath := ts_getDirectoryPath env;
     ts_createProgram := ts_createProgram env;
     ts_createSourceFile := ts_createSourceFile env;
     sys_readFile := sys_readFile env;
     sys_getCurrentDirectory := sys_getCurrentDirectory env;
     sys_useCaseSensitiveFileNames := sys_useCaseSensitiveFileNames env;
     sys_newLine := sys_newLine env;
     new_ProjectReflection := new_ProjectReflection env;
     visit := visit env; listeners := listeners env |}.

(** The installation [env] with another system call for the current
directory. *)
Definition withGetCurrentDirectory {Reflection SourceFile Diagnostic Ext : Type}
    (f : External Reflection Ext string)
    (env : Environment Reflection SourceFile Diagnostic Ext)
    : Environment Reflection SourceFile Diagnostic Ext :=
  {| application := application env; ES6 := ES6 env; tsPath := tsPath env;
     ts_normalizeSlashes := ts_normalizeSlashes env;
     ts_normalizePath := ts_normalizePath env;
     ts_getDirectoryPath := ts_getDirectoryPath env;
     ts_createProgram := ts_createProgram env;
     ts_createSourceFile := ts_createSourceFile env;
     sys_readFile := sys_readFile env;
     sys_getCurrentDirectory := f;
     sys_useCaseSensitiveFileNames := sys_useCaseSensitiveFileNames env;
     sys_newLine := sys_newLine env;
     new_ProjectReflection := new_ProjectReflection env;
     visit := visit env; listeners := listeners env |}.

Definition pluginFailure : Exn :=
  {| number := None; message := "plugin failed" |}.

(** A plugin whose listener of the resolve-begin event throws. *)
Definition failingListeners (event : string) (arg : option string)
    : External string (list string) unit :=
  fun s =>
    if String.eqb event EVENT_RESOLVE_BEGIN then (Throw pluginFailure, s)
    else (Ok tt, s).

Definition failingPluginEnv := demoEnv failingListeners "/home/user".

Definition frontEndFailure : Exn :=
  {| number := None; message := "Cannot find module" |}.

(** A front-end that throws when asked to create the program. *)
Definition failingFrontEndEnv :=
  withCreateProgram (fun _ s => (Throw frontEndFailure, s)) quietEnv.

(** An installation whose [ts.normalizePath] changes nothing. *)
Definition slashesOnlyEnv := withNormalizePath (fun p => p) quietEnv.

Definition systemFailure : Exn :=
  {| number := None; message := "ENOENT: no such file or directory, uv_cwd" |}.

(** A system that throws when asked for the current directory. *)
Definition noCwdEnv :=
  withGetCurrentDirectory (fun s => (Throw systemFailure, s)) quietEnv.

(** An index with the own entries 1 and 2 on a prototype with the
enumerable name [extend]. *)
Definition inheritingWorld :=
  demoWorld demoFiles
    {| own := own (demoIndex ["1"; "2"]); inherited := {["extend"]} |}.

(** * Proofs *)

(** ** Strings and paths *)

Module JsStringFacts.
Import JsString.



Lemma append_cons (x : ascii) (a b : string) :
  String x a +:+ b = String x (a +:+ b).
Proof. reflexivity. Qed.

Lemma append_assoc (a b c : string) : (a +:+ b) +:+ c = a +:+ (b +:+ c).
Proof.
  induction a as [|x a IH]; [reflexivity|].
  rewrite !append_cons. now f_equal.
Qed.

Lemma split_not_nil (s : string) : split s <> [].
Proof.
  induction s as [|c s IH]; simpl; [discriminate|].
  destruct (is_slash c); [discriminate|].
  destruct (split s); discriminate.
Qed.




Lemma join_cons (x : string) (l : list string) :
  l <> [] -> join (x :: l) = x +:+ String "/" (join l).
Proof. destruct l; [congruence | reflexivity]. Qed.


End JsStringFacts.

Module PathFacts.
Import JsString JsStringFacts.











(** *** Paths made of plain components *)


Lemma join_app (l1 l2 : list string) :
  l1 <> [] -> l2 <> [] -> join (l1 ++ l2) = join l1 +:+ String "/" (join l2).
Proof.
  intros H1 H2. induction l1 as [|x l1 IH]; [congruence|].
  destruct l1 as [|y l1].
  - cbn [app]. now rewrite join_cons.
  - change ((x :: y :: l1) ++ l2) with (x :: ((y :: l1) ++ l2)).
    rewrite join_cons by discriminate. rewrite IH by discriminate.
    rewrite (join_cons x (y :: l1)) by discriminate.
    now rewrite append_assoc.
Qed.












End PathFacts.

(** ** The converter *)

Section ConverterFacts.

Context {Reflection SourceFile Diagnostic Ext : Type} `{!EqDecision Reflection}.
Variable env : Environment Reflection SourceFile Diagnostic Ext.

Local Abbreviation World := (World Reflection SourceFile Ext).
Local Abbreviation Store := (Store Reflection Ext).
Local Abbreviation Action := (Action Reflection SourceFile).
Local Abbreviation total := (@total Reflection SourceFile Ext).
Local Abbreviation preserves := (@preserves Reflection SourceFile Ext).
Local Open Scope conv_scope.

Implicit Types (w : World) (s : Store) (l : loc) (fs cur : list string).

(** *** The normalization loop *)

Lemma set_arrays_set_arrays s l (a b : list string) :
  set_arrays <[l := a]> (set_arrays <[l := b]> s) = set_arrays <[l := a]> s.
Proof. unfold set_arrays; simpl. now rewrite insert_insert_eq. Qed.

Lemma set_arrays_same s l cur :
  arrays s !! l = Some cur -> set_arrays <[l := cur]> s = s.
Proof.
  intros H. destruct s as [ar p c e]; unfold set_arrays; simpl in *.
  now rewrite insert_id.
Qed.

Lemma normalize_loop l (n : nat) :
  forall (i : nat) cur w,
    arrays (store w) !! l = Some cur ->
    length cur = (i + n)%nat ->
    forEachM (seq i n)
      (fun i =>
         x <- arrayGet l i ;;
         match x with
         | Some fileName => arraySet l i (normalizeFileName env fileName)
         | None => throw (TypeError "Cannot read property 'replace' of undefined")
         end) w
    = (Ok tt,
       {| store := set_arrays
                     <[l := take i cur ++ (normalizeFileName env <$> drop i cur)]>
                     (store w);
          trace := trace w |}).
Proof.
  induction n as [|n IH]; intros i cur w Hl Hlen.
  - simpl. unfold ret. rewrite drop_ge, take_ge by lia.
    rewrite app_nil_r, set_arrays_same by exact Hl. now destruct w.
  - destruct (lookup_lt_is_Some_2 cur i) as [x Hx]; [lia|].
    cbn [seq forEachM]. unfold bind at 1. unfold bind at 1.
    unfold arrayGet at 1. rewrite Hl, Hx.
    unfold arraySet at 1. rewrite Hl.
    unfold array_write. rewrite decide_False by lia.
    rewrite (IH (S i) (<[i := normalizeFileName env x]> cur)).
    + cbn [store trace]. rewrite set_arrays_set_arrays.
      do 3 f_equal.
      rewrite (take_S_r _ _ (normalizeFileName env x))
        by (apply list_lookup_insert_eq; lia).
      rewrite take_insert_ge, drop_insert_lt by lia.
      rewrite (drop_S cur x i Hx), fmap_cons, <- List.app_assoc. reflexivity.
    + cbn [store]. unfold set_arrays; cbn [arrays]. apply lookup_insert_eq.
    + rewrite length_insert. lia.
Qed.

Lemma normalizeFileNames_run l fs w :
  arrays (store w) !! l = Some fs ->
  normalizeFileNames env l w
  = (Ok tt, {| store := set_arrays <[l := normalizeFileName env <$> fs]> (store w);
               trace := trace w |}).
Proof.
  intros Hl. unfold normalizeFileNames. unfold bind at 1.
  unfold arrayLength. rewrite Hl.
  rewrite (normalize_loop l (length fs) 0 fs w Hl) by reflexivity.
  reflexivity.
Qed.

(** *** Single steps *)

Lemma dispatch_run event key arg w :
  dispatch env event key arg w
  = ((listeners env event arg (store w)).1,
     {| store := (listeners env event arg (store w)).2;
        trace := trace w ++ [ADispatch event key arg] |}).
Proof.
  unfold dispatch, bind, emit, call; cbn [store trace].
  now destruct (listeners env event arg (store w)).
Qed.

Lemma visitFile_run (sf : SourceFile) w :
  (emit (AVisit sf) ;; call (visit env sf)) w
  = ((visit env sf (store w)).1,
     {| store := (visit env sf (store w)).2; trace := trace w ++ [AVisit sf] |}).
Proof.
  unfold bind, emit, call; cbn [store trace].
  now destruct (visit env sf (store w)).
Qed.

Lemma hasOwnProperty_hasProperty (o : JsObject Reflection) id :
  hasOwnProperty o id = true -> hasProperty o id = true.
Proof. unfold hasOwnProperty, hasProperty. now intros ->. Qed.

(** A turn of the resolve loop dispatches exactly when the name is an own
property of the index at that moment. *)
Lemma resolveReflection_run id w :
  resolveReflection env id w
  = if hasOwnProperty (reflections (current_project (store w))) id
    then dispatch env EVENT_RESOLVE (Some id)
           (own (reflections (current_project (store w))) !! id) w
    else (Ok tt, w).
Proof.
  unfold resolveReflection, bind, gets, ret.
  destruct (hasOwnProperty _ id) eqn:Ho.
  - now rewrite (hasOwnProperty_hasProperty _ _ Ho).
  - now destruct (hasProperty _ id).
Qed.

(** *** The two loops of [convert] *)

Lemma forEachM_cons {A : Type} (body : A -> M World unit) x (l : list A) w :
  forEachM (x :: l) body w
  = match body x w with
    | (Ok _, w') => forEachM l body w'
    | (Throw e, w') => (Throw e, w')
    end.
Proof. reflexivity. Qed.

Lemma visits_run (sfs : list SourceFile) :
  forall w,
    exists visited rest,
      sfs = visited ++ rest /\
      trace (forEachM sfs (fun sf => emit (AVisit sf) ;; call (visit env sf)) w).2
      = trace w ++ (AVisit <$> visited) /\
      (is_Ok (forEachM sfs (fun sf => emit (AVisit sf) ;; call (visit env sf)) w).1
       -> rest = []).
Proof.
  induction sfs as [|sf sfs IH]; intros w.
  - exists [], []. simpl. now rewrite app_nil_r.
  - rewrite forEachM_cons, visitFile_run.
    destruct (visit env sf (store w)) as [[[]|e] s1]; cbn [fst snd].
    + destruct (IH {| store := s1; trace := trace w ++ [AVisit sf] |})
        as (visited & rest & Hsplit & Ht & Hok).
      exists (sf :: visited), rest. split; [now rewrite Hsplit|].
      split; [|exact Hok].
      rewrite Ht. cbn [trace]. now rewrite <- List.app_assoc.
    + exists [sf], sfs. split; [reflexivity|]. split; [reflexivity|]. intros [].
Qed.

Lemma resolve_loop_run (ids : list string) :
  forall w,
    exists resolved : list (string * option Reflection),
      trace (forEachM ids (resolveReflection env) w).2
      = trace w ++ (resolveAction <$> resolved) /\
      resolved.*1 `sublist_of` ids.
Proof.
  induction ids as [|id ids IH]; intros w.
  - exists []. simpl. now rewrite app_nil_r.
  - rewrite forEachM_cons, resolveReflection_run.
    destruct (hasOwnProperty _ id).
    + rewrite dispatch_run.
      destruct (listeners env EVENT_RESOLVE _ (store w)) as [[[]|e] s1];
        cbn [fst snd].
      * match goal with |- context [forEachM ids _ ?w1] =>
          destruct (IH w1) as (resolved & Ht & Hsub) end.
        exists ((id, own (reflections (current_project (store w))) !! id)
                :: resolved).
        split; [|now apply sublist_skip].
        rewrite Ht. cbn [trace]. now rewrite <- List.app_assoc.
      * exists [(id, own (reflections (current_project (store w))) !! id)].
        split; [reflexivity|]. apply sublist_skip, sublist_nil_l.
    + destruct (IH w) as (resolved & Ht & Hsub).
      exists resolved. split; [exact Ht|]. now apply sublist_cons.
Qed.

(** *** Order of the actions of a conversion *)

Lemma sorted_lookup (R : Action -> Action -> Prop) (t : list Action) :
  StronglySorted R t ->
  forall (i j : nat) a b,
    (i < j)%nat -> t !! i = Some a -> t !! j = Some b -> R a b.
Proof.
  induction 1 as [|x t Hs IH Hx]; intros i j a b Hij Hi Hj; [done|].
  destruct j as [|j]; [lia|]. cbn in Hj.
  destruct i as [|i]; cbn in Hi.
  - injection Hi as <-. rewrite Forall_forall in Hx.
    apply Hx. eapply list_elem_of_lookup_2, Hj.
  - apply (IH i j); [lia|done..].
Qed.

Local Ltac split_elems :=
  repeat match goal with
  | H : _ ∈ _ ++ _ |- _ => apply elem_of_app in H as [H|H]
  | H : _ ∈ _ :: _ |- _ => apply elem_of_cons in H as [->|H]
  | H : _ ∈ [] |- _ => now apply not_elem_of_nil in H
  | H : _ ∈ _ <$> _ |- _ => apply list_elem_of_fmap in H as (? & -> & _)
  end.

Lemma conversionTrace_sorted (sfs : list SourceFile)
    (resolved : list (string * option Reflection)) :
  StronglySorted phase_le (conversionTrace sfs resolved).
Proof.
  unfold conversionTrace.
  repeat first
    [ apply StronglySorted_app_2;
      [ intros x1 x2 H1 H2; split_elems; unfold phase_le; cbn; lia | | ]
    | apply SSorted_cons; [|apply Forall_forall; intros x2 H2; split_elems; unfold phase_le; cbn; lia]
    | apply SSorted_nil ].
  - induction sfs as [|sf sfs IH]; cbn; constructor; [exact IH|].
    apply Forall_forall. intros x Hx. split_elems. unfold phase_le. cbn. lia.
  - induction resolved as [|r rs IH]; cbn; constructor; [exact IH|].
    apply Forall_forall. intros x Hx. split_elems. unfold phase_le. cbn. lia.
Qed.

Lemma before_of_sorted (P Q : Action -> Prop) (t : list Action) :
  StronglySorted phase_le t ->
  (forall a b, P a -> Q b -> (phase a < phase b)%nat) ->
  before P Q t.
Proof.
  intros Hs Hph i j a b Hi Hj Pa Qb.
  destruct (lt_eq_lt_dec i j) as [[Hlt|Heq]|Hgt]; [exact Hlt| |].
  - subst j. rewrite Hi in Hj. injection Hj as <-.
    specialize (Hph a a Pa Qb). lia.
  - pose proof (sorted_lookup phase_le t Hs j i b a Hgt Hj Hi) as Hle.
    specialize (Hph a b Pa Qb). unfold phase_le in Hle. lia.
Qed.

Lemma phase_of_dispatch (event : string) (a : Action) :
  isDispatch event a ->
  phase a = phase (ADispatch event None None : Action).
Proof. destruct a; cbn; try done. now intros ->. Qed.

Lemma phase_of_visit (a : Action) : isVisit a -> phase a = 2%nat.
Proof. now destruct a. Qed.

(** *** Computations that never throw, and computations that keep a
property of the store *)

Lemma total_ret {A : Type} (a : A) : total (ret a).
Proof. now intros w. Qed.

Lemma total_bind {A B : Type} (m : M World A) (k : A -> M World B) :
  total m -> (forall a, total (k a)) -> total (bind m k).
Proof.
  intros Hm Hk w. unfold bind. specialize (Hm w).
  destruct (m w) as [[a|e] w1]; [apply Hk | destruct Hm].
Qed.

Lemma total_gets {A : Type} (f : Store -> A) : total (gets f).
Proof. now intros w. Qed.

Lemma total_modify (f : Store -> Store) : total (modify f).
Proof. now intros w. Qed.

Lemma total_emit (a : Action) : total (emit a).
Proof. now intros w. Qed.

Lemma total_call {A : Type} (f : External Reflection Ext A) :
  (forall s, is_Ok (f s).1) -> total (call f).
Proof.
  intros Hf w. unfold call. specialize (Hf (store w)).
  now destruct (f (store w)).
Qed.

Lemma total_forEachM {A : Type} (body : A -> M World unit) (xs : list A) :
  (forall x, total (body x)) -> total (forEachM xs body).
Proof.
  intros Hb. induction xs as [|x xs IH]; [apply total_ret|].
  apply total_bind; [apply Hb | intros _; exact IH].
Qed.

Lemma preserves_ret J {A : Type} (a : A) : preserves J (ret a).
Proof. now intros w. Qed.

Lemma preserves_bind J {A B : Type} (m : M World A) (k : A -> M World B) :
  preserves J m -> (forall a, preserves J (k a)) -> preserves J (bind m k).
Proof.
  intros Hm Hk w Hw. unfold bind. specialize (Hm w Hw).
  destruct (m w) as [[a|e] w1]; [now apply Hk | exact Hm].
Qed.

Lemma preserves_gets J {A : Type} (f : Store -> A) : preserves J (gets f).
Proof. now intros w. Qed.

Lemma preserves_modify J (f : Store -> Store) :
  (forall s, J s -> J (f s)) -> preserves J (modify f).
Proof. intros Hf w Hw. now apply Hf. Qed.

Lemma preserves_emit J (a : Action) : preserves J (emit a).
Proof. now intros w. Qed.

Lemma preserves_call J {A : Type} (f : External Reflection Ext A) :
  (forall s, J s -> J (f s).2) -> preserves J (call f).
Proof.
  intros Hf w Hw. unfold call. specialize (Hf (store w) Hw).
  now destruct (f (store w)).
Qed.

Lemma preserves_forEachM J {A : Type} (body : A -> M World unit) (xs : list A) :
  (forall x, preserves J (body x)) -> preserves J (forEachM xs body).
Proof.
  intros Hb. induction xs as [|x xs IH]; [apply preserves_ret|].
  apply preserves_bind; [apply Hb | intros _; exact IH].
Qed.

(** *** The run of [convert] *)

Lemma resolveReflections_run w :
  exists resolved : list (string * option Reflection),
    trace (resolveReflections env w).2 = trace w ++ (resolveAction <$> resolved) /\
    resolved.*1
    `sublist_of` enumerableKeys (reflections (current_project (store w))).
Proof.
  exact (resolve_loop_run
           (enumerableKeys (reflections (current_project (store w)))) w).
Qed.

Local Ltac step_dispatch E :=
  unfold bind at 1 in E; rewrite dispatch_run in E; cbn [store trace] in E;
  match type of E with context [listeners env ?ev ?a ?s] =>
    destruct (listeners env ev a s) as [[[]|?e] ?s']
  end; cbn [fst snd] in E.

Local Ltac trace_prefix :=
  unfold conversionTrace; eexists;
  repeat first [rewrite <- List.app_assoc | progress simpl]; reflexivity.

Lemma convert_run l fs w :
  arrays (store w) !! l = Some fs ->
  exists t sfs resolved,
    trace (convert env l w).2
    = trace w ++ ACreateProgram (normalizeFileName env <$> fs) :: t /\
    t `prefix_of` conversionTrace sfs resolved /\
    (forall res, (convert env l w).1 = Ok res ->
       t = conversionTrace sfs resolved /\
       exists program s1,
         ts_createProgram env l
           (set_arrays <[l := normalizeFileName env <$> fs]> (store w))
         = (Ok program, s1) /\
         sfs = getSourceFiles program /\
         errors res
         = getDiagnostics program ++ checker_getDiagnostics (getTypeChecker program) /\
         project res = current_project (store (convert env l w).2)).
Proof.
  intros Hl. destruct (convert env l w) as [o w'] eqn:E. cbn [fst snd].
  unfold convert in E. unfold bind at 1 in E.
  rewrite (normalizeFileNames_run l fs w Hl) in E.
  unfold bind at 1 in E. unfold gets at 1 in E. cbn [store trace set_arrays arrays] in E.
  rewrite lookup_insert_eq in E. cbn [default from_option] in E.
  unfold bind at 1 in E. unfold emit at 1 in E. cbn [store trace] in E.
  unfold bind at 1 in E. unfold call at 1 in E. cbn [store trace id] in E.
  destruct (ts_createProgram env l _) as [[p|e] s1] eqn:Ecp.
  2:{ inversion E; subst o w'. exists [], [], []. cbn [trace].
      split; [reflexivity|]. split; [apply prefix_nil | discriminate]. }
  unfold bind at 1 in E. unfold modify at 1 in E. cbn [store trace] in E.
  step_dispatch E.
  2:{ inversion E; subst o w'. cbn [trace].
      exists [ADispatch EVENT_BEGIN None None], [], [].
      split; [now rewrite <- List.app_assoc|].
      split; [trace_prefix | discriminate]. }
  unfold bind at 1 in E.
  match type of E with context [forEachM (getSourceFiles p) ?b ?w2] =>
    destruct (visits_run (getSourceFiles p) w2) as (visited & rest & Hs & Hv & Hvok);
    destruct (forEachM (getSourceFiles p) b w2) as [[[]|e] w3]
  end; cbn [fst snd trace] in Hv, Hvok.
  2:{ inversion E; subst o w'. rewrite Hv.
      exists ([ADispatch EVENT_BEGIN None None] ++ (AVisit <$> visited)), visited, [].
      split; [now rewrite <- !List.app_assoc|].
      split; [trace_prefix | discriminate]. }
  rewrite (Hvok I), app_nil_r in Hs. subst visited. clear Hvok rest.
  step_dispatch E.
  2:{ inversion E; subst o w'. cbn [trace]. rewrite Hv.
      exists ([ADispatch EVENT_BEGIN None None] ++ (AVisit <$> getSourceFiles p)
              ++ [ADispatch EVENT_RESOLVE_BEGIN None None]), (getSourceFiles p), [].
      split; [now rewrite <- !List.app_assoc|].
      split; [trace_prefix | discriminate]. }
  unfold bind at 1 in E.
  match type of E with context [resolveReflections env ?w4] =>
    destruct (resolveReflections_run w4) as (resolved & Hr & _);
    destruct (resolveReflections env w4) as [[[]|e] w5]
  end; cbn [fst snd trace] in Hr.
  2:{ inversion E; subst o w'. rewrite Hr, Hv.
      exists ([ADispatch EVENT_BEGIN None None] ++ (AVisit <$> getSourceFiles p)
              ++ [ADispatch EVENT_RESOLVE_BEGIN None None]
              ++ (resolveAction <$> resolved)), (getSourceFiles p), resolved.
      split; [now rewrite <- !List.app_assoc|].
      split; [trace_prefix | discriminate]. }
  step_dispatch E.
  2:{ inversion E; subst o w'. cbn [trace]. rewrite Hr, Hv.
      exists ([ADispatch EVENT_BEGIN None None] ++ (AVisit <$> getSourceFiles p)
              ++ [ADispatch EVENT_RESOLVE_BEGIN None None]
              ++ (resolveAction <$> resolved)
              ++ [ADispatch EVENT_RESOLVE_END None None]), (getSourceFiles p), resolved.
      split; [now rewrite <- !List.app_assoc|].
      split; [trace_prefix | discriminate]. }
  step_dispatch E.
  2:{ inversion E; subst o w'. cbn [trace]. rewrite Hr, Hv.
      exists (conversionTrace (getSourceFiles p) resolved), (getSourceFiles p), resolved.
      split; [unfold conversionTrace; now rewrite <- !List.app_assoc|].
      split; [reflexivity | discriminate]. }
  unfold bind, gets, ret in E. cbn [store] in E.
  inversion E; subst o w'. cbn [trace store]. rewrite Hr, Hv.
  exists (conversionTrace (getSourceFiles p) resolved), (getSourceFiles p), resolved.
  split; [unfold conversionTrace; now rewrite <- !List.app_assoc|].
  split; [reflexivity|].
  intros res [= <-]. split; [reflexivity|].
  exists p, s1. cbn [errors project]. auto.
Qed.

(** *** [convert] with collaborators that return normally *)

Lemma total_dispatch event key arg :
  (forall a s, is_Ok (listeners env event a s).1) ->
  total (dispatch env event key arg).
Proof.
  intros Hl. unfold dispatch.
  apply total_bind; [apply total_emit | intros _; apply total_call, Hl].
Qed.

Lemma total_resolveReflection id :
  (forall a s, is_Ok (listeners env EVENT_RESOLVE a s).1) ->
  total (resolveReflection env id).
Proof.
  intros Hl. unfold resolveReflection.
  apply total_bind; [apply total_gets | intros o].
  destruct (negb (hasProperty o id)); [apply total_ret|].
  destruct (negb (hasOwnProperty o id)); [apply total_ret|].
  now apply total_dispatch.
Qed.

Lemma total_resolveReflections :
  (forall a s, is_Ok (listeners env EVENT_RESOLVE a s).1) ->
  total (resolveReflections env).
Proof.
  intros Hl. unfold resolveReflections.
  apply total_bind; [apply total_gets | intros ids].
  apply total_forEachM. intros id. now apply total_resolveReflection.
Qed.

Lemma convert_total l fs w :
  arrays (store w) !! l = Some fs ->
  (forall s, is_Ok (ts_createProgram env l s).1) ->
  (forall sf s, is_Ok (visit env sf s).1) ->
  (forall event a s, is_Ok (listeners env event a s).1) ->
  is_Ok (convert env l w).1.
Proof.
  intros Hl Hcp Hv Hls. unfold convert. unfold bind at 1.
  rewrite (normalizeFileNames_run l fs w Hl).
  match goal with |- is_Ok (?m ?w0).1 => apply (fun H : total m => H w0) end.
  repeat first
    [ apply total_gets | apply total_emit | apply total_modify | apply total_ret
    | apply total_dispatch; apply Hls
    | apply total_resolveReflections; apply Hls
    | apply total_call; first [apply Hcp | apply Hv]
    | apply total_forEachM; intros ?
    | apply total_bind; [|intros ?] ].
Qed.

(** *** [convert] with collaborators that leave a property of the store
alone *)

Lemma preserves_dispatch J event key arg :
  (forall a s, J s -> J (listeners env event a s).2) ->
  preserves J (dispatch env event key arg).
Proof.
  intros Hl. unfold dispatch.
  apply preserves_bind; [apply preserves_emit | intros _; apply preserves_call, Hl].
Qed.

Lemma preserves_resolveReflections J :
  (forall a s, J s -> J (listeners env EVENT_RESOLVE a s).2) ->
  preserves J (resolveReflections env).
Proof.
  intros Hl. unfold resolveReflections.
  apply preserves_bind; [apply preserves_gets | intros ids].
  apply preserves_forEachM. intros id. unfold resolveReflection.
  apply preserves_bind; [apply preserves_gets | intros o].
  destruct (negb (hasProperty o id)); [apply preserves_ret|].
  destruct (negb (hasOwnProperty o id)); [apply preserves_ret|].
  now apply preserves_dispatch.
Qed.

Lemma convert_keeps_array l fs w :
  arrays (store w) !! l = Some fs ->
  (forall s, arrays (ts_createProgram env l s).2 !! l = arrays s !! l) ->
  (forall sf s, arrays (visit env sf s).2 !! l = arrays s !! l) ->
  (forall event a s, arrays (listeners env event a s).2 !! l = arrays s !! l) ->
  arrays (store (convert env l w).2) !! l = Some (normalizeFileName env <$> fs).
Proof.
  intros Hl Hcp Hv Hls. unfold convert. unfold bind at 1.
  rewrite (normalizeFileNames_run l fs w Hl).
  set (J := fun s : Store => arrays s !! l = Some (normalizeFileName env <$> fs)).
  assert (HJcp : forall s, J s -> J (ts_createProgram env l s).2)
    by (unfold J; intros s <-; apply Hcp).
  assert (HJv : forall sf s, J s -> J (visit env sf s).2)
    by (unfold J; intros sf s <-; apply Hv).
  assert (HJl : forall event a s, J s -> J (listeners env event a s).2)
    by (unfold J; intros event a s <-; apply Hls).
  match goal with |- arrays (store (?m ?w0).2) !! l = _ =>
    apply (fun H : preserves J m => H w0) end.
  - repeat first
      [ apply preserves_gets | apply preserves_emit | apply preserves_ret
      | apply preserves_modify; now intros
      | apply preserves_dispatch; apply HJl
      | apply preserves_resolveReflections; apply HJl
      | apply preserves_call; first [apply HJcp | apply HJv]
      | apply preserves_forEachM; intros ?
      | apply preserves_bind; [|intros ?] ].
  - unfold J. cbn [store set_arrays arrays]. apply lookup_insert_eq.
Qed.

(** *** The resolve loop *)

Lemma elem_of_enumerableKeys (o : JsObject Reflection) id :
  id ∈ enumerableKeys o <-> hasProperty o id = true.
Proof.
  unfold enumerableKeys, hasProperty.
  rewrite elem_of_app, !elem_of_elements, elem_of_difference, orb_true_iff,
    !bool_decide_eq_true.
  destruct (decide (id ∈ dom (own o))); tauto.
Qed.

Lemma NoDup_enumerableKeys (o : JsObject Reflection) : NoDup (enumerableKeys o).
Proof.
  unfold enumerableKeys. apply NoDup_app. split; [apply NoDup_elements|].
  split; [|apply NoDup_elements].
  intros id. rewrite !elem_of_elements, elem_of_difference. tauto.
Qed.

Lemma isResolveOf_resolveAction id (kr : string * option Reflection) :
  isResolveOf id (resolveAction kr : Action) = String.eqb kr.1 id.
Proof. reflexivity. Qed.

Lemma resolveCount_absent id (resolved : list (string * option Reflection)) :
  id ∉ resolved.*1 ->
  resolveCount id (resolveAction <$> resolved : list Action) = 0%nat.
Proof.
  unfold resolveCount.
  induction resolved as [|kr rs IH]; [reflexivity|]. cbn [fmap list_fmap].
  rewrite not_elem_of_cons. intros [Hne Hrs]. cbn [List.filter].
  rewrite isResolveOf_resolveAction.
  destruct (String.eqb_spec kr.1 id) as [Heq|_]; [now subst|]. now apply IH.
Qed.

Lemma resolveCount_present id (resolved : list (string * option Reflection)) :
  NoDup resolved.*1 ->
  id ∈ resolved.*1 ->
  resolveCount id (resolveAction <$> resolved : list Action) = 1%nat.
Proof.
  induction resolved as [|kr rs IH]; cbn [fmap list_fmap].
  - intros _ H. now apply not_elem_of_nil in H.
  - rewrite NoDup_cons, elem_of_cons. intros [Hnot Hnd] Hin.
    unfold resolveCount. cbn [List.filter]. rewrite isResolveOf_resolveAction.
    destruct (String.eqb_spec kr.1 id) as [Heq|Hne].
    + subst id. cbn [length]. f_equal. now apply resolveCount_absent.
    + destruct Hin as [Heq|Hin]; [congruence|]. now apply IH.
Qed.


Lemma filter_all {A : Type} (f : A -> bool) (xs : list A) :
  (forall x, x ∈ xs -> f x = true) -> List.filter f xs = xs.
Proof.
  induction xs as [|x xs IH]; intros H; [reflexivity|]. cbn [List.filter].
  rewrite (H x) by apply list_elem_of_here. f_equal. apply IH.
  intros y Hy. apply H. now apply list_elem_of_further.
Qed.

Lemma filter_none {A : Type} (f : A -> bool) (xs : list A) :
  (forall x, x ∈ xs -> f x = false) -> List.filter f xs = [].
Proof.
  induction xs as [|x xs IH]; intros H; [reflexivity|]. cbn [List.filter].
  rewrite (H x) by apply list_elem_of_here. apply IH.
  intros y Hy. apply H. now apply list_elem_of_further.
Qed.






(** ** The claims *)

(** Whatever the listeners do, no reflection is resolved twice in one pass,
and a name that was no property of the index when the loop started is not
resolved in it. *)
Lemma resolveReflections_at_most_once w :
  exists t,
    trace (resolveReflections env w).2 = trace w ++ t /\
    (forall id, (resolveCount id t <= 1)%nat) /\
    (forall id,
       hasProperty (reflections (current_project (store w))) id = false ->
       resolveCount id t = 0%nat).
Proof.
  destruct (resolveReflections_run w) as (resolved & Ht & Hsub).
  exists (resolveAction <$> resolved). split; [exact Ht|].
  assert (Hnd : NoDup resolved.*1)
    by (eapply sublist_NoDup; [apply NoDup_enumerableKeys | exact Hsub]).
  split.
  - intros id. destruct (decide (id ∈ resolved.*1)) as [Hin|Hout].
    + now rewrite resolveCount_present.
    + rewrite resolveCount_absent by exact Hout. lia.
  - intros id Hid. apply resolveCount_absent. intros Hin.
    apply (elem_of_sublist _ _ _ Hin), elem_of_enumerableKeys in Hsub.
    congruence.
Qed.


Lemma conversionTrace_resolveBegin (sfs : list SourceFile)
    (resolved : list (string * option Reflection)) :
  conversionTrace sfs resolved !! S (length sfs)
  = Some (ADispatch EVENT_RESOLVE_BEGIN None None).
Proof.
  unfold conversionTrace.
  change (((AVisit <$> sfs)
           ++ [ADispatch EVENT_RESOLVE_BEGIN None None]
           ++ (resolveAction <$> resolved)
           ++ [ADispatch EVENT_RESOLVE_END None None;
               ADispatch EVENT_END None None] : list Action) !! length sfs
          = Some (ADispatch EVENT_RESOLVE_BEGIN None None)).
  rewrite lookup_app_r by now rewrite length_fmap.
  now rewrite length_fmap, Nat.sub_diag.
Qed.

(** C2. The actions of a conversion, after the program was created, are a
prefix of: begin, the visits of the source files, resolve-begin, the
resolve dispatches, resolve-end, end; the whole of it when the conversion
returns. So begin comes before every visit, every visit before
resolve-begin, every resolve dispatch after resolve-begin and before
resolve-end, resolve-end before end, and a conversion that returns has
dispatched end last. *)
Theorem convert_event_order l fs w :
  arrays (store w) !! l = Some fs ->
  exists t sfs resolved,
    trace (convert env l w).2
    = trace w ++ ACreateProgram (normalizeFileName env <$> fs) :: t /\
    t `prefix_of` conversionTrace sfs resolved /\
    (is_Ok (convert env l w).1 ->
       t = conversionTrace sfs resolved /\
       last t = Some (ADispatch EVENT_END None None)) /\
    before (isDispatch EVENT_BEGIN) isVisit t /\
    (forall j a, t !! j = Some a -> isVisit a ->
       t !! 0%nat = Some (ADispatch EVENT_BEGIN None None)) /\
    before isVisit (isDispatch EVENT_RESOLVE_BEGIN) t /\
    before (isDispatch EVENT_RESOLVE_BEGIN) (isDispatch EVENT_RESOLVE) t /\
    (forall j a, t !! j = Some a -> isDispatch EVENT_RESOLVE a ->
       exists i, (i < j)%nat /\
         t !! i = Some (ADispatch EVENT_RESOLVE_BEGIN None None)) /\
    before (isDispatch EVENT_RESOLVE) (isDispatch EVENT_RESOLVE_END) t /\
    before (isDispatch EVENT_RESOLVE_END) (isDispatch EVENT_END) t.
Proof.
  intros Hl.
  destruct (convert_run l fs w Hl) as (t & sfs & resolved & Ht & Hpre & Hok).
  exists t, sfs, resolved.
  pose proof (conversionTrace_sorted sfs resolved) as Hfull.
  assert (Hs : StronglySorted phase_le t).
  { destruct Hpre as [k Hk]. rewrite Hk in Hfull.
    now apply StronglySorted_app_1_l in Hfull. }
  assert (Hbefore : forall e1 e2,
    (phase (ADispatch e1 None None : Action)
     <? phase (ADispatch e2 None None : Action))%nat = true ->
    before (isDispatch e1) (isDispatch e2) t).
  { intros e1 e2 Hlt. apply before_of_sorted; [exact Hs|]. intros a b Ha Hb.
    rewrite (phase_of_dispatch _ _ Ha), (phase_of_dispatch _ _ Hb).
    now apply Nat.ltb_lt. }
  split; [exact Ht|]. split; [exact Hpre|]. split.
  { destruct (convert env l w).1 as [res|e]; [|intros []]. intros _.
    destruct (Hok res eq_refl) as [-> _]. split; [reflexivity|].
    unfold conversionTrace. now rewrite !last_app. }
  split.
  { apply before_of_sorted; [exact Hs|]. intros a b Ha Hb.
    rewrite (phase_of_dispatch _ _ Ha), (phase_of_visit _ Hb). now apply Nat.ltb_lt. }
  split.
  { intros j a Hj _. apply lookup_lt_Some in Hj.
    rewrite (prefix_lookup_lt t (conversionTrace sfs resolved) 0%nat);
      [reflexivity | lia | exact Hpre]. }
  split.
  { apply before_of_sorted; [exact Hs|]. intros a b Ha Hb.
    rewrite (phase_of_dispatch _ _ Hb), (phase_of_visit _ Ha). now apply Nat.ltb_lt. }
  split; [now apply Hbefore|].
  split.
  { intros j a Hj Ha. exists (S (length sfs)).
    pose proof (prefix_lookup_Some _ _ _ _ Hj Hpre) as Hj'.
    assert (Hij : (S (length sfs) < j)%nat).
    { apply (before_of_sorted (isDispatch EVENT_RESOLVE_BEGIN)
               (isDispatch EVENT_RESOLVE) _ Hfull) with
        (a := ADispatch EVENT_RESOLVE_BEGIN None None) (b := a);
        [|apply conversionTrace_resolveBegin|exact Hj'|reflexivity|exact Ha].
      intros x y Hx Hy.
      rewrite (phase_of_dispatch _ _ Hx), (phase_of_dispatch _ _ Hy). now apply Nat.ltb_lt. }
    split; [exact Hij|].
    apply lookup_lt_Some in Hj.
    rewrite (prefix_lookup_lt t (conversionTrace sfs resolved) (S (length sfs)));
      [apply conversionTrace_resolveBegin | lia | exact Hpre]. }
  split; now apply Hbefore.
Qed.

(** C3. Whatever diagnostics the program and its type checker report,
a conversion whose collaborators return normally returns too; its result
holds the diagnostics of the program followed by those of the checker
next to the project, and every source file of the program was visited. *)
Theorem convert_returns_diagnostics l fs w :
  arrays (store w) !! l = Some fs ->
  (forall s, is_Ok (ts_createProgram env l s).1) ->
  (forall sf s, is_Ok (visit env sf s).1) ->
  (forall event a s, is_Ok (listeners env event a s).1) ->
  exists program s1 res w' resolved,
    ts_createProgram env l
      (set_arrays <[l := normalizeFileName env <$> fs]> (store w))
    = (Ok program, s1) /\
    convert env l w = (Ok res, w') /\
    errors res
    = getDiagnostics program ++ checker_getDiagnostics (getTypeChecker program) /\
    project res = current_project (store w') /\
    trace w'
    = trace w ++ ACreateProgram (normalizeFileName env <$> fs)
        :: conversionTrace (getSourceFiles program) resolved.
Proof.
  intros Hl Hcp Hv Hls.
  pose proof (convert_total l fs w Hl Hcp Hv Hls) as Htot.
  destruct (convert_run l fs w Hl) as (t & sfs & resolved & Ht & _ & Hok).
  destruct (convert env l w) as [[res|e] w'] eqn:E; [|destruct Htot].
  cbn [fst snd] in *.
  destruct (Hok res eq_refl) as (-> & program & s1 & Hp & -> & Herr & Hproj).
  now exists program, s1, res, w', resolved.
Qed.

(** C4. [getSourceFile] turns an exception of the read into a source file
with empty text: the callback, when there is one, is called once with the
fixed text for the unsupported-encoding error number and with the message
of the exception otherwise, and only an exception of the callback itself
leaves the function. A read that returns no text gives no file, and no
call of the callback. *)
Theorem getSourceFile_read_outcomes filename languageVersion onError w :
  let read :=
    sys_readFile env filename (charset (compilerOptions (application env)))
      (store w) in
  (forall e, read.1 = Throw e ->
     (number e = Some ERROR_UNSUPPORTED_FILE_ENCODING ->
      readErrorMessage e = "Unsupported file encoding") /\
     (number e <> Some ERROR_UNSUPPORTED_FILE_ENCODING ->
      readErrorMessage e = message e) /\
     match onError with
     | None =>
         getSourceFile env filename languageVersion None w
         = (Ok (Some (ts_createSourceFile env filename "" languageVersion "0")),
            {| store := read.2; trace := trace w |})
     | Some cb =>
         let called := cb (readErrorMessage e) read.2 in
         getSourceFile env filename languageVersion (Some cb) w
         = (match called.1 with
            | Ok _ =>
                Ok (Some (ts_createSourceFile env filename "" languageVersion "0"))
            | Throw e' => Throw e'
            end,
            {| store := called.2;
               trace := trace w ++ [AOnError (readErrorMessage e)] |})
     end) /\
  (read.1 = Ok None ->
   getSourceFile env filename languageVersion onError w
   = (Ok None, {| store := read.2; trace := trace w |})).
Proof.
  cbv zeta. unfold getSourceFile, bind, tryCatch, call, emit, ret.
  destruct (sys_readFile env filename _ (store w)) as [[text|e0] s1];
    cbn [fst snd store trace]; split.
  - intros e [=].
  - now intros [= ->].
  - intros e [= <-]. unfold readErrorMessage.
    split; [intros H; now rewrite bool_decide_eq_true_2|].
    split; [intros H; now rewrite bool_decide_eq_false_2|].
    destruct onError as [cb|]; [|reflexivity].
    now destruct (cb _ s1) as [[[]|e'] s2].
  - intros [=].
Qed.

(** C5. The array of names the front-end is given to create the program
holds, for every name passed to [convert], its path-normalized
slash-normalized form; [convert] creates no other program. *)
Theorem convert_passes_normalized_names l fs w :
  arrays (store w) !! l = Some fs ->
  exists t,
    trace (convert env l w).2
    = trace w
      ++ ACreateProgram
           ((fun f => ts_normalizePath env (ts_normalizeSlashes env f)) <$> fs)
      :: t /\
    Forall (fun a => forall names, a <> ACreateProgram names) t.
Proof.
  intros Hl.
  destruct (convert_run l fs w Hl) as (t & sfs & resolved & Ht & Hpre & _).
  exists t. split; [exact Ht|].
  apply Forall_forall. intros a Ha names ->.
  destruct Hpre as [k Hk].
  assert (Hf : ACreateProgram names ∈ conversionTrace sfs resolved)
    by (rewrite Hk; apply elem_of_app; now left).
  clear Ha Hk Ht. unfold conversionTrace in Hf.
  repeat match goal with
  | H : _ ∈ _ ++ _ |- _ => apply elem_of_app in H as [H|H]
  | H : _ ∈ _ :: _ |- _ => apply elem_of_cons in H as [H|H]
  | H : _ ∈ [] |- _ => now apply not_elem_of_nil in H
  | H : _ ∈ _ <$> _ |- _ => apply list_elem_of_fmap in H as (? & H & _)
  | H : ACreateProgram _ = _ |- _ => discriminate H
  end.
Qed.

(** C6. On a converter that has no directory cached, the first call
asks the system once, stores the answer in the converter and returns it;
from then on, in any state in which the converter holds that answer, a
call returns the identical value without asking the system and without
changing anything. The answer of the system is a directory path, which is
never the empty string. *)
Theorem getCurrentDirectory_cached w d s1 :
  currentDirectory (store w) = None ->
  sys_getCurrentDirectory env (store w) = (Ok d, s1) ->
  JsString.truthy d = true ->
  getCurrentDirectory env w
  = (Ok d, {| store := set_currentDirectory (Some d) s1;
              trace := trace w ++ [ASysGetCurrentDirectory] |}) /\
  currentDirectory (store (getCurrentDirectory env w).2) = Some d /\
  forall w2,
    currentDirectory (store w2) = Some d ->
    getCurrentDirectory env w2 = (Ok d, w2).
Proof.
  intros Hfresh Hsys Hd.
  assert (Hfirst : getCurrentDirectory env w
    = (Ok d, {| store := set_currentDirectory (Some d) s1;
                trace := trace w ++ [ASysGetCurrentDirectory] |})).
  { unfold getCurrentDirectory, bind, gets, emit, call, modify, ret.
    rewrite Hfresh. cbn [store trace]. now rewrite Hsys. }
  split; [exact Hfirst|]. split; [now rewrite Hfirst|].
  intros w2 H2. unfold getCurrentDirectory, bind, gets, ret.
  now rewrite H2, Hd.
Qed.




(** C9. [writeFile] returns at once for all arguments: the store and the
trace are as before, so nothing was written and the callback was not
called. *)
Theorem writeFile_does_nothing (fileName data : string)
    (writeByteOrderMark : bool)
    (onError : option (string -> External Reflection Ext unit)) w :
  writeFile fileName data writeByteOrderMark onError w = (Ok tt, w).
Proof. reflexivity. Qed.

(** C10. [convert] writes the normalized names into the array it was
given: once the loop of lines 263-265 is over, the array at the caller's
reference holds the path-normalized slash-normalized form of each of its
former elements, and, when the collaborators do not write to that array
themselves, it still does when [convert] is over. *)
Theorem convert_normalizes_in_place l fs w :
  arrays (store w) !! l = Some fs ->
  (forall s, arrays (ts_createProgram env l s).2 !! l = arrays s !! l) ->
  (forall sf s, arrays (visit env sf s).2 !! l = arrays s !! l) ->
  (forall event a s, arrays (listeners env event a s).2 !! l = arrays s !! l) ->
  arrays (store (normalizeFileNames env l w).2) !! l
  = Some ((fun f => ts_normalizePath env (ts_normalizeSlashes env f)) <$> fs) /\
  arrays (store (convert env l w).2) !! l
  = Some ((fun f => ts_normalizePath env (ts_normalizeSlashes env f)) <$> fs).
Proof.
  intros Hl Hcp Hv Hls. split.
  - rewrite (normalizeFileNames_run l fs w Hl). cbn [snd store set_arrays arrays].
    apply lookup_insert_eq.
  - exact (convert_keeps_array l fs w Hl Hcp Hv Hls).
Qed.

End ConverterFacts.

(** ** The claims on the small installation *)

Lemma lookup_demoWorld files index :
  arrays (store (demoWorld files index)) !! 1%positive = Some files.
Proof. apply lookup_singleton_eq. Defined.


(** The same plugin in a whole conversion: both files get a reflection
while they are visited, one of the two is resolved. *)
Example convert_pruning_trace :
  trace (convert pruningEnv 1%positive freshWorld).2
  = [ACreateProgram ["src/a.ts"; "b.ts"];
     ADispatch EVENT_BEGIN None None;
     AVisit ("src/a.ts", "export var x;");
     AVisit ("b.ts", "export var x;");
     ADispatch EVENT_RESOLVE_BEGIN None None;
     ADispatch EVENT_RESOLVE (Some "src/a.ts") (Some "src/a.ts");
     ADispatch EVENT_RESOLVE_END None None;
     ADispatch EVENT_END None None].
Proof. vm_compute. reflexivity. Qed.


(** C2, witness: the conversion of the two demo files returns, and its
trace after the creation of the program is a whole [conversionTrace]
ending with the end event. *)
Lemma convert_event_order_witness :
  exists t sfs resolved,
    trace (convert quietEnv 1%positive freshWorld).2
    = ACreateProgram ["src/a.ts"; "b.ts"] :: t /\
    t = conversionTrace sfs resolved /\
    last t = Some (ADispatch EVENT_END None None).
Proof.
  destruct (convert_event_order quietEnv 1%positive demoFiles freshWorld
              (lookup_demoWorld _ _))
    as (t & sfs & resolved & Ht & _ & Hok & _).
  exists t, sfs, resolved.
  destruct (Hok I) as [Hfull Hlast].
  split; [exact Ht|]. split; [exact Hfull | exact Hlast].
Defined.

(** C3, witness: the front-end of the demo reports one syntactic and one
semantic diagnostic; the conversion returns both. *)
Lemma convert_returns_diagnostics_witness :
  exists res w',
    convert quietEnv 1%positive freshWorld = (Ok res, w') /\
    errors res = ["a.ts(1,1): error TS1005"; "a.ts(2,3): error TS2322"].
Proof.
  destruct (convert_returns_diagnostics quietEnv 1%positive demoFiles freshWorld
              (lookup_demoWorld _ _))
    as (program & s1 & res & w' & resolved & Hp & Hrun & Herr & _).
  - intros s. exact I.
  - intros sf s. exact I.
  - intros event a s. exact I.
  - exists res, w'. split; [exact Hrun|].
    rewrite Herr. injection Hp as <- _. reflexivity.
Defined.

(** C5, witness: the names of the demo, one with a backslash and one with
a dot-dot component, reach the front-end normalized. *)
Lemma convert_passes_normalized_names_witness :
  exists t,
    trace (convert quietEnv 1%positive freshWorld).2
    = ACreateProgram ["src/a.ts"; "b.ts"] :: t /\
    Forall (fun a => forall names, a <> ACreateProgram names) t.
Proof.
  exact (convert_passes_normalized_names quietEnv 1%positive demoFiles freshWorld
           (lookup_demoWorld _ _)).
Defined.

(** C6, witness: the system reports [/home/user]. *)
Lemma getCurrentDirectory_cached_witness :
  getCurrentDirectory quietEnv freshWorld
  = (Ok "/home/user",
     {| store := set_currentDirectory (Some "/home/user") (store freshWorld);
        trace := [ASysGetCurrentDirectory] |}) /\
  currentDirectory (store (getCurrentDirectory quietEnv freshWorld).2)
  = Some "/home/user" /\
  forall w2,
    currentDirectory (store w2) = Some "/home/user" ->
    getCurrentDirectory quietEnv w2 = (Ok "/home/user", w2).
Proof.
  exact (getCurrentDirectory_cached quietEnv freshWorld "/home/user"
           (store freshWorld) eq_refl eq_refl eq_refl).
Defined.

(** C10, witness: after the conversion the caller's array holds the
normalized names. *)
Lemma convert_normalizes_in_place_witness :
  arrays (store (convert addingEnv 1%positive freshWorld).2) !! 1%positive
  = Some ["src/a.ts"; "b.ts"].
Proof.
  apply (convert_normalizes_in_place addingEnv 1%positive demoFiles freshWorld
           (lookup_demoWorld _ _)).
  - intros s. reflexivity.
  - intros sf s. reflexivity.
  - intros event a s. cbn. unfold addingListeners.
    destruct (String.eqb event EVENT_RESOLVE); reflexivity.
Defined.

(** [getSourceFile] on the demo files: an unsupported encoding, another
failure of the read, and a file that does not exist. *)
Example getSourceFile_unsupported_encoding :
  getSourceFile quietEnv "binary.ts" 1 (Some (fun msg s => (Ok tt, s))) freshWorld
  = (Ok (Some ("binary.ts", "")),
     {| store := store freshWorld;
        trace := [AOnError "Unsupported file encoding"] |}).
Proof. reflexivity. Qed.

Example getSourceFile_permission_denied :
  getSourceFile quietEnv "locked.ts" 1 (Some (fun msg s => (Ok tt, s))) freshWorld
  = (Ok (Some ("locked.ts", "")),
     {| store := store freshWorld;
        trace := [AOnError "EACCES: permission denied"] |}).
Proof. reflexivity. Qed.

Example getSourceFile_missing :
  getSourceFile quietEnv "missing.ts" 1 (Some (fun msg s => (Ok tt, s))) freshWorld
  = (Ok None, freshWorld).
Proof. reflexivity. Qed.


(** The capital letters of Latin-1 are lowered as the engine lowers them:
the code unit 201 (E with acute accent) becomes 233, the multiplication
sign 215 and the sharp s 223 stay. *)
Example getCanonicalFileName_latin1 :
  getCanonicalFileName quietEnv
    (String (ascii_of_nat 201)
       (String (ascii_of_nat 215) (String (ascii_of_nat 223) "T.TS")))
  = String (ascii_of_nat 233)
      (String (ascii_of_nat 215) (String (ascii_of_nat 223) "t.ts")).
Proof. reflexivity. Qed.

Example getDefaultLibFilename_demo :
  getDefaultLibFilename quietEnv
  = "/usr/lib/node_modules/typescript/bin/lib.es6.d.ts".
Proof. reflexivity. Qed.

(** * Further properties of the converter *)

Section MoreConverterFacts.

Context {Reflection SourceFile Diagnostic Ext : Type}.
Variable env : Environment Reflection SourceFile Diagnostic Ext.

Local Abbreviation World := (World Reflection SourceFile Ext).
Local Abbreviation Store := (Store Reflection Ext).
Local Abbreviation Action := (Action Reflection SourceFile).
Local Abbreviation preserves := (@preserves Reflection SourceFile Ext).
Local Open Scope conv_scope.

Implicit Types (w : World) (s : Store) (l : loc) (fs : list string).

(** ** [convert] when the front-end cannot create the program *)

Lemma convert_run_no_program l fs w e s1 :
  arrays (store w) !! l = Some fs ->
  ts_createProgram env l
    (set_arrays <[l := normalizeFileName env <$> fs]> (store w))
  = (Throw e, s1) ->
  convert env l w
  = (Throw e,
     {| store := s1;
        trace := trace w ++ [ACreateProgram (normalizeFileName env <$> fs)] |}).
Proof.
  intros Hl Hcp. unfold convert. unfold bind at 1.
  rewrite (normalizeFileNames_run env l fs w Hl).
  unfold bind at 1. unfold gets at 1. cbn [store trace set_arrays arrays].
  rewrite lookup_insert_eq. cbn [default from_option id].
  unfold bind at 1. unfold emit at 1. cbn [store trace].
  unfold bind at 1. unfold call at 1. cbn [store trace].
  now rewrite Hcp.
Qed.

(** X2. When the front-end throws while it creates the program, [convert]
throws the same exception at once: no project is created, no event is
dispatched and no file is visited; the array was normalized before the
call and stays so, as far as the front-end left it alone. *)
Theorem convert_createProgram_failure l fs w e s1 :
  arrays (store w) !! l = Some fs ->
  ts_createProgram env l
    (set_arrays <[l := normalizeFileName env <$> fs]> (store w))
  = (Throw e, s1) ->
  convert env l w
  = (Throw e,
     {| store := s1;
        trace := trace w ++ [ACreateProgram (normalizeFileName env <$> fs)] |}) /\
  current_project (store (convert env l w).2) = current_project s1 /\
  (arrays s1 !! l = Some (normalizeFileName env <$> fs) ->
   arrays (store (convert env l w).2) !! l = Some (normalizeFileName env <$> fs)).
Proof.
  intros Hl Hcp. rewrite (convert_run_no_program l fs w e s1 Hl Hcp).
  now repeat split.
Qed.

(** ** The run of [convert] once the program is there *)

Lemma resolve_loop_values (ids : list string) :
  forall w,
    exists resolved : list (string * option Reflection),
      trace (forEachM ids (resolveReflection env) w).2
      = trace w ++ (resolveAction <$> resolved) /\
      Forall (fun kr => is_Some kr.2) resolved.
Proof.
  induction ids as [|id ids IH]; intros w.
  - exists []. cbn. now rewrite app_nil_r.
  - rewrite forEachM_cons, resolveReflection_run.
    destruct (hasOwnProperty _ id) eqn:Hown.
    + assert (Hsome : is_Some (own (reflections (current_project (store w))) !! id))
        by (apply elem_of_dom; unfold hasOwnProperty in Hown;
            now apply bool_decide_eq_true in Hown).
      rewrite dispatch_run.
      destruct (listeners env EVENT_RESOLVE _ (store w)) as [[[]|e] s1];
        cbn [fst snd].
      * match goal with |- context [forEachM ids _ ?w1] =>
          destruct (IH w1) as (resolved & Ht & Hall) end.
        exists ((id, own (reflections (current_project (store w))) !! id)
                :: resolved).
        split; [|now constructor].
        rewrite Ht. cbn [trace]. now rewrite <- List.app_assoc.
      * exists [(id, own (reflections (current_project (store w))) !! id)].
        split; [reflexivity|]. now repeat constructor.
    + exact (IH w).
Qed.

Local Ltac step_dispatch' E :=
  unfold bind at 1 in E; rewrite dispatch_run in E; cbn [store trace] in E;
  match type of E with context [listeners env ?ev ?a ?s] =>
    destruct (listeners env ev a s) as [[[]|?e] ?s']
  end; cbn [fst snd] in E.

Local Ltac trace_prefix' :=
  unfold conversionTrace; rewrite ?fmap_app; eexists;
  repeat first [rewrite <- List.app_assoc | progress simpl]; reflexivity.

Lemma convert_run_program l fs w p s1 :
  arrays (store w) !! l = Some fs ->
  ts_createProgram env l
    (set_arrays <[l := normalizeFileName env <$> fs]> (store w))
  = (Ok p, s1) ->
  exists t resolved,
    trace (convert env l w).2
    = trace w ++ ACreateProgram (normalizeFileName env <$> fs) :: t /\
    t `prefix_of` conversionTrace (getSourceFiles p) resolved /\
    Forall (fun kr => is_Some kr.2) resolved.
Proof.
  intros Hl Hcp. destruct (convert env l w) as [o w'] eqn:E. cbn [fst snd].
  unfold convert in E. unfold bind at 1 in E.
  rewrite (normalizeFileNames_run env l fs w Hl) in E.
  unfold bind at 1 in E. unfold gets at 1 in E.
  cbn [store trace set_arrays arrays] in E.
  rewrite lookup_insert_eq in E. cbn [default from_option] in E.
  unfold bind at 1 in E. unfold emit at 1 in E. cbn [store trace] in E.
  unfold bind at 1 in E. unfold call at 1 in E. cbn [store trace id] in E.
  rewrite Hcp in E.
  unfold bind at 1 in E. unfold modify at 1 in E. cbn [store trace] in E.
  step_dispatch' E.
  2:{ inversion E; subst o w'. cbn [trace].
      exists [ADispatch EVENT_BEGIN None None], [].
      split; [now rewrite <- List.app_assoc|].
      split; [trace_prefix' | constructor]. }
  unfold bind at 1 in E.
  match type of E with context [forEachM (getSourceFiles p) ?b ?w2] =>
    destruct (visits_run env (getSourceFiles p) w2)
      as (visited & rest & Hs & Hv & Hvok);
    destruct (forEachM (getSourceFiles p) b w2) as [[[]|e] w3]
  end; cbn [fst snd trace] in Hv, Hvok.
  2:{ inversion E; subst o w'. rewrite Hv, Hs.
      exists ([ADispatch EVENT_BEGIN None None] ++ (AVisit <$> visited)), [].
      split; [now rewrite <- !List.app_assoc|].
      split; [trace_prefix' | constructor]. }
  rewrite (Hvok I), app_nil_r in Hs. subst visited. clear Hvok rest.
  step_dispatch' E.
  2:{ inversion E; subst o w'. cbn [trace]. rewrite Hv.
      exists ([ADispatch EVENT_BEGIN None None] ++ (AVisit <$> getSourceFiles p)
              ++ [ADispatch EVENT_RESOLVE_BEGIN None None]), [].
      split; [now rewrite <- !List.app_assoc|].
      split; [trace_prefix' | constructor]. }
  unfold bind at 1 in E.
  match type of E with context [resolveReflections env ?w4] =>
    destruct (resolve_loop_values
                (enumerableKeys (reflections (current_project (store w4)))) w4)
      as (resolved & Hr & Hsome);
    change (forEachM (enumerableKeys (reflections (current_project (store w4))))
              (resolveReflection env) w4)
      with (resolveReflections env w4) in Hr;
    destruct (resolveReflections env w4) as [[[]|e] w5]
  end; cbn [fst snd trace] in Hr.
  2:{ inversion E; subst o w'. rewrite Hr, Hv.
      exists ([ADispatch EVENT_BEGIN None None] ++ (AVisit <$> getSourceFiles p)
              ++ [ADispatch EVENT_RESOLVE_BEGIN None None]
              ++ (resolveAction <$> resolved)), resolved.
      split; [now rewrite <- !List.app_assoc|].
      split; [trace_prefix' | exact Hsome]. }
  step_dispatch' E.
  2:{ inversion E; subst o w'. cbn [trace]. rewrite Hr, Hv.
      exists ([ADispatch EVENT_BEGIN None None] ++ (AVisit <$> getSourceFiles p)
              ++ [ADispatch EVENT_RESOLVE_BEGIN None None]
              ++ (resolveAction <$> resolved)
              ++ [ADispatch EVENT_RESOLVE_END None None]), resolved.
      split; [now rewrite <- !List.app_assoc|].
      split; [trace_prefix' | exact Hsome]. }
  assert (Hend : trace w'
                 = (trace w5 ++ [ADispatch EVENT_RESOLVE_END None None])
                   ++ [ADispatch EVENT_END None None]).
  { step_dispatch' E; [unfold bind, gets, ret in E|];
      inversion E; subst o w'; reflexivity. }
  rewrite Hend, Hr, Hv.
  exists (conversionTrace (getSourceFiles p) resolved), resolved.
  split; [unfold conversionTrace; now rewrite <- !List.app_assoc|].
  split; [reflexivity | exact Hsome].
Qed.

(** X3. The resolution starts only after every source file was visited:
in a conversion for which the front-end returned a program, also one that
throws later on, a dispatch of the resolve-begin event has before it the
begin event and the visits of all the source files of the program, in the
order of the program. *)
Theorem resolve_begins_after_all_visits l fs w p s1 :
  arrays (store w) !! l = Some fs ->
  ts_createProgram env l
    (set_arrays <[l := normalizeFileName env <$> fs]> (store w))
  = (Ok p, s1) ->
  exists t,
    trace (convert env l w).2
    = trace w ++ ACreateProgram (normalizeFileName env <$> fs) :: t /\
    (ADispatch EVENT_RESOLVE_BEGIN None None ∈ t ->
     (ADispatch EVENT_BEGIN None None :: (AVisit <$> getSourceFiles p))
     `prefix_of` t).
Proof.
  intros Hl Hcp.
  destruct (convert_run_program l fs w p s1 Hl Hcp) as (t & resolved & Ht & Hpre & _).
  exists t. split; [exact Ht|]. intros Hin.
  assert (HA : (ADispatch EVENT_BEGIN None None :: (AVisit <$> getSourceFiles p))
               `prefix_of` conversionTrace (getSourceFiles p) resolved).
  { unfold conversionTrace. eexists. reflexivity. }
  destruct (prefix_weak_total _ _ _ Hpre HA) as [Hsmall|Hbig]; [|exact Hbig].
  exfalso. destruct Hsmall as [k Hk].
  assert (Hin' : ADispatch EVENT_RESOLVE_BEGIN None None
                 ∈ (ADispatch EVENT_BEGIN None None
                    :: (AVisit <$> getSourceFiles p) : list Action))
    by (rewrite Hk; apply elem_of_app; now left).
  apply elem_of_cons in Hin' as [Heq|Hin']; [discriminate Heq|].
  apply list_elem_of_fmap in Hin' as (sf & Heq & _). discriminate Heq.
Qed.

Lemma ownAction_conversionTrace (sfs : list SourceFile)
    (resolved : list (string * option Reflection)) :
  Forall (fun kr => is_Some kr.2) resolved ->
  Forall ownAction (conversionTrace sfs resolved).
Proof.
  intros Hsome. unfold conversionTrace.
  assert (Hgen : forall event,
            event ∈ generalEvents -> event <> EVENT_RESOLVE ->
            ownAction (ADispatch event None None : Action)).
  { intros event Hin Hne. cbn. split; [exact Hin|]. split; [done|]. done. }
  assert (Hin : forall event,
            bool_decide (event ∈ generalEvents) = true -> event ∈ generalEvents)
    by (intros event; apply bool_decide_eq_true).
  apply Forall_app; split; [apply Forall_cons; split; [|by constructor]|].
  { apply Hgen; [now apply Hin | discriminate]. }
  apply Forall_app; split.
  { apply Forall_fmap, Forall_forall. now intros sf _. }
  apply Forall_app; split; [apply Forall_cons; split; [|by constructor]|].
  { apply Hgen; [now apply Hin | discriminate]. }
  apply Forall_app; split.
  { apply Forall_fmap. eapply Forall_impl; [exact Hsome|].
    intros [k r] Hr. cbn in *. split; [now apply Hin|].
    split; [intros _; split; [by eexists | exact Hr] | congruence]. }
  apply Forall_cons; split; [|apply Forall_cons; split; [|by constructor]].
  - apply Hgen; [now apply Hin | discriminate].
  - apply Hgen; [now apply Hin | discriminate].
Qed.

(** X4. What [convert] does itself, after the creation of the program, is
to visit source files and to dispatch the five general events: it never
dispatches a factory event, never asks the system for the current
directory and never calls an error callback. A dispatch of the resolve
event always carries a reflection, never [undefined]; the dispatches of
the four other events carry none. *)
Theorem convert_dispatches_general_events_only l fs w :
  arrays (store w) !! l = Some fs ->
  exists t,
    trace (convert env l w).2
    = trace w ++ ACreateProgram (normalizeFileName env <$> fs) :: t /\
    Forall ownAction t.
Proof.
  intros Hl.
  destruct (ts_createProgram env l
              (set_arrays <[l := normalizeFileName env <$> fs]> (store w)))
    as [[p|e] s1] eqn:Hcp.
  - destruct (convert_run_program l fs w p s1 Hl Hcp)
      as (t & resolved & Ht & [k Hk] & Hsome).
    exists t. split; [exact Ht|].
    pose proof (ownAction_conversionTrace (getSourceFiles p) resolved Hsome) as H.
    rewrite Hk in H. now apply Forall_app in H as [H _].
  - exists []. rewrite (convert_run_no_program l fs w e s1 Hl Hcp).
    split; [reflexivity | constructor].
Qed.

(** X5. The project of the result is made from a new project by the
visitor and the listeners alone: a property the new project has and each
call of the visitor and of a listener keeps, the project of the result
has, whatever project an earlier conversion left behind and whatever the
front-end did. *)
Theorem convert_project_invariant (J : ProjectReflection Reflection -> Prop)
    l fs w res w' :
  arrays (store w) !! l = Some fs ->
  J (new_ProjectReflection env (name (options (application env)))) ->
  (forall sf s, J (current_project s) -> J (current_project (visit env sf s).2)) ->
  (forall event a s,
     J (current_project s) -> J (current_project (listeners env event a s).2)) ->
  convert env l w = (Ok res, w') ->
  J (project res).
Proof.
  intros Hl Hnew Hv Hls Hrun.
  set (J' := fun s : Store => J (current_project s)).
  destruct (convert_run env l fs w Hl) as (t & sfs & resolved & _ & _ & Hok).
  rewrite Hrun in Hok. cbn [fst snd] in Hok.
  destruct (Hok res eq_refl) as (_ & p & s1 & Hcp & _ & _ & Hproj).
  rewrite Hproj. change (J' (store w')).
  unfold convert in Hrun. unfold bind at 1 in Hrun.
  rewrite (normalizeFileNames_run env l fs w Hl) in Hrun.
  unfold bind at 1 in Hrun. unfold gets at 1 in Hrun.
  cbn [store trace set_arrays arrays] in Hrun.
  rewrite lookup_insert_eq in Hrun. cbn [default from_option] in Hrun.
  unfold bind at 1 in Hrun. unfold emit at 1 in Hrun. cbn [store trace] in Hrun.
  unfold bind at 1 in Hrun. unfold call at 1 in Hrun. cbn [store trace id] in Hrun.
  rewrite Hcp in Hrun.
  unfold bind at 1 in Hrun. unfold modify at 1 in Hrun. cbn [store trace] in Hrun.
  match type of Hrun with ?m ?w1 = _ =>
    assert (Hp : preserves J' m);
    [|specialize (Hp w1); rewrite Hrun in Hp; now apply Hp]
  end.
  repeat first
    [ apply preserves_gets | apply preserves_emit | apply preserves_ret
    | apply preserves_dispatch; intros ? ?; apply Hls
    | apply preserves_resolveReflections; intros ? ?; apply Hls
    | apply preserves_call; intros ?; apply Hv
    | apply preserves_forEachM; intros ?
    | apply preserves_bind; [|intros ?] ].
Qed.

(** X17. A conversion that returns went the whole way, whatever the
collaborators may do in other states: the front-end returned a program
for the normalized array, the result holds the diagnostics of that program
followed by those of its checker, the project of the result is the one in
the store, and the trace is the creation of the program followed by begin,
the visits of all source files of the program, resolve-begin, resolve
dispatches, resolve-end and end. *)
Theorem convert_returned l fs w res w' :
  arrays (store w) !! l = Some fs ->
  convert env l w = (Ok res, w') ->
  exists program s1 resolved,
    ts_createProgram env l
      (set_arrays <[l := normalizeFileName env <$> fs]> (store w))
    = (Ok program, s1) /\
    errors res
    = getDiagnostics program ++ checker_getDiagnostics (getTypeChecker program) /\
    project res = current_project (store w') /\
    trace w'
    = trace w ++ ACreateProgram (normalizeFileName env <$> fs)
        :: conversionTrace (getSourceFiles program) resolved.
Proof.
  intros Hl Hrun.
  destruct (convert_run env l fs w Hl) as (t & sfs & resolved & Ht & _ & Hok).
  rewrite Hrun in Ht, Hok. cbn [fst snd] in Ht, Hok.
  destruct (Hok res eq_refl) as (-> & program & s1 & Hp & -> & Herr & Hproj).
  now exists program, s1, resolved.
Qed.

(** ** The resolve loop when the listeners leave the index alone *)

Lemma filter_own_enumerableKeys (o : JsObject Reflection) :
  List.filter (hasOwnProperty o) (enumerableKeys o) = elements (dom (own o)).
Proof.
  unfold enumerableKeys. rewrite List.filter_app.
  rewrite filter_all, filter_none; [apply app_nil_r | |].
  - intros id Hid. apply elem_of_elements, elem_of_difference in Hid as [_ Hid].
    now apply bool_decide_eq_false.
  - intros id Hid. apply elem_of_elements in Hid. now apply bool_decide_eq_true.
Qed.

Lemma resolve_loop_same_index (ids : list string) :
  (forall a s, is_Ok (listeners env EVENT_RESOLVE a s).1) ->
  (forall a s,
     reflections (current_project (listeners env EVENT_RESOLVE a s).2)
     = reflections (current_project s)) ->
  forall w,
    let o := reflections (current_project (store w)) in
    exists w',
      forEachM ids (resolveReflection env) w = (Ok tt, w') /\
      reflections (current_project (store w')) = o /\
      trace w'
      = trace w
        ++ ((fun id => resolveAction (id, own o !! id))
              <$> List.filter (hasOwnProperty o) ids).
Proof.
  intros Hok Hsame. induction ids as [|id ids IH]; intros w o.
  - exists w. cbn. now rewrite app_nil_r.
  - rewrite forEachM_cons, resolveReflection_run. cbn [List.filter].
    fold o. destruct (hasOwnProperty o id) eqn:Hown.
    + rewrite dispatch_run.
      pose proof (Hok (own o !! id) (store w)) as Hok1.
      pose proof (Hsame (own o !! id) (store w)) as Hsame1. fold o in Hsame1.
      destruct (listeners env EVENT_RESOLVE _ (store w)) as [[[]|e] s1];
        [|destruct Hok1]. cbn [fst snd] in *.
      match goal with |- context [forEachM ids _ ?w1] =>
        destruct (IH w1) as (w' & Hrun & Hidx & Ht) end.
      cbn [store trace] in *. rewrite Hsame1 in Hidx, Ht.
      exists w'. split; [exact Hrun|]. split; [exact Hidx|].
      rewrite Ht. cbn [fmap list_fmap]. now rewrite <- List.app_assoc.
    + exact (IH w).
Qed.

Lemma elements_dom_map_to_list (m : gmap string Reflection) :
  elements (dom m) ≡ₚ (map_to_list m).*1.
Proof.
  apply NoDup_Permutation;
    [apply NoDup_elements | apply NoDup_fst_map_to_list|].
  intros k. rewrite elem_of_elements, elem_of_dom, list_elem_of_fmap. split.
  - intros [x Hx]. exists (k, x). split; [reflexivity|].
    now apply elem_of_map_to_list.
  - intros ([k' x] & -> & Hkx). exists x. now apply elem_of_map_to_list.
Qed.

(** X6. When the listeners of the resolve event return and leave the
index of the project as it is, the resolve loop dispatches the event once
for every own entry of the index, with the reflection the index holds
under the name, and for nothing else: a name the index only inherits gets
no dispatch. The dispatches are those of the entries of the index, in the
order of the engine, about which nothing is said. The loop returns and the
index is the same afterwards. *)
Theorem resolveReflections_dispatches_own_entries w :
  (forall a s, is_Ok (listeners env EVENT_RESOLVE a s).1) ->
  (forall a s,
     reflections (current_project (listeners env EVENT_RESOLVE a s).2)
     = reflections (current_project s)) ->
  let o := reflections (current_project (store w)) in
  exists w' t,
    resolveReflections env w = (Ok tt, w') /\
    reflections (current_project (store w')) = o /\
    trace w' = trace w ++ t /\
    t ≡ₚ (fun kr : string * Reflection =>
            ADispatch EVENT_RESOLVE (Some kr.1) (Some kr.2))
           <$> map_to_list (own o).
Proof.
  intros Hok Hsame o.
  destruct (resolve_loop_same_index (enumerableKeys o) Hok Hsame w)
    as (w' & Hrun & Hidx & Ht).
  exists w'. eexists. split; [exact Hrun|]. split; [exact Hidx|].
  split; [exact Ht|]. fold o. rewrite filter_own_enumerableKeys.
  assert (Hentries :
    (fun kr : string * Reflection =>
       ADispatch EVENT_RESOLVE (Some kr.1) (Some kr.2) : Action)
      <$> map_to_list (own o)
    = (fun id => resolveAction (id, own o !! id)) <$> (map_to_list (own o)).*1).
  { rewrite <- list_fmap_compose. apply list_fmap_ext.
    intros i [k x] Hkx%list_elem_of_lookup_2%elem_of_map_to_list. cbn.
    now rewrite Hkx. }
  rewrite Hentries. apply fmap_Permutation, elements_dom_map_to_list.
Qed.

(** ** [getSourceFile] *)

(** X7. When the read returns, [getSourceFile] calls no callback and
leaves the store as the read left it; it creates the source file from the
text read, with version 0, and returns [undefined] for a read that
returned [undefined]. [undefined] is returned in that case only: a read
that throws never gives it. *)
Theorem getSourceFile_undefined_iff filename languageVersion onError w :
  let read :=
    sys_readFile env filename (charset (compilerOptions (application env)))
      (store w) in
  (forall text,
     read.1 = Ok text ->
     getSourceFile env filename languageVersion onError w
     = (Ok ((fun t => ts_createSourceFile env filename t languageVersion "0")
              <$> text),
        {| store := read.2; trace := trace w |})) /\
  ((getSourceFile env filename languageVersion onError w).1 = Ok None
   <-> read.1 = Ok None).
Proof.
  cbv zeta. unfold getSourceFile, bind, tryCatch, call, emit, ret.
  destruct (sys_readFile env filename _ (store w)) as [[[t|]|e0] s1];
    cbn [fst snd store trace]; (split; [intros text [=]; now subst|]).
  - split; intros [=].
  - done.
  - destruct onError as [cb|]; cbn [fst snd store trace];
      [|split; intros [=]].
    match goal with |- context [cb ?m ?s] =>
      destruct (cb m s) as [[[]|e'] s2] end;
      cbn [fst snd]; split; intros [=].
Qed.

(** X8. [getSourceFile] throws nothing of its own and lets no exception of
the read through: without a callback it always returns, and with one an
exception that leaves it was thrown by the callback, called for a read that
threw, with the message for that exception. *)
Theorem getSourceFile_throws_what_onError_threw filename languageVersion w :
  is_Ok (getSourceFile env filename languageVersion None w).1 /\
  forall cb e' w',
    getSourceFile env filename languageVersion (Some cb) w = (Throw e', w') ->
    exists e s1,
      sys_readFile env filename (charset (compilerOptions (application env)))
        (store w)
      = (Throw e, s1) /\
      cb (readErrorMessage e) s1 = (Throw e', store w') /\
      trace w' = trace w ++ [AOnError (readErrorMessage e)].
Proof.
  unfold getSourceFile, bind, tryCatch, call, emit, ret.
  destruct (sys_readFile env filename _ (store w)) as [[text|e0] s1];
    cbn [fst snd store trace]; (split; [exact I|]); intros cb e' w'.
  - intros [=].
  - match goal with |- context [cb ?m ?s] =>
      destruct (cb m s) as [[[]|e1] s2] eqn:Hcb end;
      intros [= <- <-].
    exists e0, s1. now rewrite Hcb.
Qed.

(** ** [getCurrentDirectory] *)

Lemma sysCalls_snoc (t : list Action) (a : Action) :
  sysCalls (t ++ [a])
  = (sysCalls t + (if isSysGetCurrentDirectory a then 1 else 0))%nat.
Proof.
  unfold sysCalls. rewrite List.filter_app, length_app. cbn [List.filter].
  now destruct (isSysGetCurrentDirectory a).
Qed.

(** X9. A call of [getCurrentDirectory] asks the system exactly when the
converter holds no non-empty directory, once, whether the system answers
or throws; and after a call that returns, the converter holds the
directory that was returned. *)
Theorem getCurrentDirectory_asks_iff_nothing_cached w :
  let cached :=
    match currentDirectory (store w) with
    | Some d => JsString.truthy d
    | None => false
    end in
  sysCalls (trace (getCurrentDirectory env w).2)
  = (sysCalls (trace w) + (if cached then 0 else 1))%nat /\
  forall d,
    (getCurrentDirectory env w).1 = Ok d ->
    currentDirectory (store (getCurrentDirectory env w).2) = Some d.
Proof.
  cbv zeta. unfold getCurrentDirectory, bind, gets, emit, call, modify, ret.
  cbn [store trace].
  assert (Hask :
    forall r : Outcome string * Store,
      sysCalls
        (trace (let '(o, w') :=
                  let '(o, s) := r in
                  (o, {| store := s;
                         trace := trace w ++ [ASysGetCurrentDirectory] |}) in
                match o with
                | Ok a => (Ok a, {| store := set_currentDirectory (Some a) (store w');
                                    trace := trace w' |})
                | Throw e => (Throw e, w')
                end : Outcome string * World).2)
      = (sysCalls (trace w) + 1)%nat).
  { intros [[d|e] s]; cbn [snd store trace]; apply sysCalls_snoc. }
  destruct (currentDirectory (store w)) as [d0|] eqn:Hc;
    [destruct (JsString.truthy d0) eqn:Ht|].
  - cbn [fst snd]. split; [lia|]. now intros d [= <-].
  - split; [apply Hask|].
    destruct (sys_getCurrentDirectory env (store w)) as [[d|e] s];
      cbn [fst snd store trace]; intros d' [=]. now subst.
  - split; [apply Hask|].
    destruct (sys_getCurrentDirectory env (store w)) as [[d|e] s];
      cbn [fst snd store trace]; intros d' [=]. now subst.
Qed.

(** X10. [getCurrentDirectory] throws only what the system threw when it
was asked for the directory, and then caches nothing: the store is as the
system left it, so that the next call asks again. *)
Theorem getCurrentDirectory_failure w e w' :
  getCurrentDirectory env w = (Throw e, w') ->
  sys_getCurrentDirectory env (store w) = (Throw e, store w') /\
  trace w' = trace w ++ [ASysGetCurrentDirectory].
Proof.
  unfold getCurrentDirectory, bind, gets, emit, call, modify, ret.
  cbn [store trace].
  destruct (currentDirectory (store w)) as [d0|];
    [destruct (JsString.truthy d0); [intros [=]|]|];
    (destruct (sys_getCurrentDirectory env (store w)) as [[d|e0] s];
     cbn [store trace]; intros [=]; now subst).
Qed.

(** ** [getCanonicalFileName] *)

Lemma isCapital_lowerCodeUnit (c : ascii) :
  isCapital (JsString.lowerCodeUnit c) = false.
Proof. destruct c as [[] [] [] [] [] [] [] []]; reflexivity. Qed.

Lemma lowerCodeUnit_not_capital (c : ascii) :
  isCapital c = false -> JsString.lowerCodeUnit c = c.
Proof. destruct c as [[] [] [] [] [] [] [] []]; (reflexivity || discriminate). Qed.

Lemma is_slash_lowerCodeUnit (c : ascii) :
  JsString.is_slash (JsString.lowerCodeUnit c) = JsString.is_slash c.
Proof. destruct c as [[] [] [] [] [] [] [] []]; reflexivity. Qed.

Lemma hasCapital_toLowerCase (s : string) :
  hasCapital (JsString.toLowerCase s) = false.
Proof.
  induction s as [|c s IH]; [reflexivity|]. cbn [JsString.toLowerCase hasCapital].
  now rewrite isCapital_lowerCodeUnit, IH.
Qed.

Lemma toLowerCase_no_capital (s : string) :
  hasCapital s = false -> JsString.toLowerCase s = s.
Proof.
  induction s as [|c s IH]; [reflexivity|]. cbn [JsString.toLowerCase hasCapital].
  intros [Hc Hs]%orb_false_elim. now rewrite lowerCodeUnit_not_capital, IH.
Qed.

Lemma length_toLowerCase (s : string) :
  String.length (JsString.toLowerCase s) = String.length s.
Proof. induction s as [|c s IH]; [reflexivity|]. cbn. now rewrite IH. Qed.

Lemma toLowerCase_append (a b : string) :
  JsString.toLowerCase (a +:+ b)
  = JsString.toLowerCase a +:+ JsString.toLowerCase b.
Proof.
  induction a as [|c a IH]; [reflexivity|].
  rewrite JsStringFacts.append_cons. cbn [JsString.toLowerCase].
  now rewrite JsStringFacts.append_cons, IH.
Qed.

Lemma split_toLowerCase (s : string) :
  JsString.split (JsString.toLowerCase s)
  = JsString.toLowerCase <$> JsString.split s.
Proof.
  induction s as [|c s IH]; [reflexivity|].
  cbn [JsString.toLowerCase JsString.split]. rewrite is_slash_lowerCodeUnit, IH.
  destruct (JsString.is_slash c); [reflexivity|].
  destruct (JsString.split s) as [|h t] eqn:E; [|reflexivity].
  now apply JsStringFacts.split_not_nil in E.
Qed.

(** X11. For a name made of code units below 256, the canonical name has
the length of the name, and it holds a capital letter (A-Z or a capital
letter of Latin-1) exactly when the platform tells
[useCaseSensitiveFileNames] that file names are case sensitive and the
name holds one; a name without these letters is its own canonical name on
every platform. *)
Theorem getCanonicalFileName_capitals (fileName : string) :
  hasCapital (getCanonicalFileName env fileName)
  = useCaseSensitiveFileNames env && hasCapital fileName /\
  String.length (getCanonicalFileName env fileName) = String.length fileName /\
  (hasCapital fileName = false -> getCanonicalFileName env fileName = fileName).
Proof.
  unfold getCanonicalFileName, useCaseSensitiveFileNames.
  destruct (sys_useCaseSensitiveFileNames env); [now repeat split|].
  split; [apply hasCapital_toLowerCase|].
  split; [apply length_toLowerCase | apply toLowerCase_no_capital].
Qed.

(** X12. For names made of code units below 256, canonical names follow
the structure of paths: the canonical name of a concatenation is the
concatenation of the canonical names, and the components of the canonical
name of a path, between its slashes, are the canonical names of the
components of the path. *)
Theorem getCanonicalFileName_componentwise (a b : string) :
  getCanonicalFileName env (a +:+ b)
  = getCanonicalFileName env a +:+ getCanonicalFileName env b /\
  JsString.split (getCanonicalFileName env a)
  = getCanonicalFileName env <$> JsString.split a.
Proof.
  unfold getCanonicalFileName.
  destruct (sys_useCaseSensitiveFileNames env).
  - split; [reflexivity|]. now rewrite list_fmap_id.
  - split; [apply toLowerCase_append | apply split_toLowerCase].
Qed.

(** ** The normalization of the array *)

(** X13. The loop of [convert] that normalizes the names changes the
array it is given and nothing else: it returns, the array keeps its
length, and every other array, the project, the directory the converter
has cached, the state of the collaborators and the trace are as before. *)
Theorem normalizeFileNames_frame l fs w :
  arrays (store w) !! l = Some fs ->
  let r := normalizeFileNames env l w in
  r.1 = Ok tt /\
  length <$> arrays (store r.2) !! l = Some (length fs) /\
  (forall l', l' <> l -> arrays (store r.2) !! l' = arrays (store w) !! l') /\
  current_project (store r.2) = current_project (store w) /\
  currentDirectory (store r.2) = currentDirectory (store w) /\
  ext (store r.2) = ext (store w) /\
  trace r.2 = trace w.
Proof.
  intros Hl. cbv zeta. rewrite (normalizeFileNames_run env l fs w Hl).
  cbn [fst snd store trace set_arrays arrays current_project currentDirectory ext].
  split; [reflexivity|]. split.
  - rewrite lookup_insert_eq. cbn. now rewrite length_fmap.
  - split; [|now repeat split].
    intros l' Hne. now rewrite lookup_insert_ne.
Qed.

(** X14. Normalizing an array a second time, as a second conversion of the
same array object does, applies the normalization to the normalized names;
when the normalization of the front-end gives back a normalized name
unchanged, the second pass changes nothing. *)
Theorem normalizeFileNames_twice l fs w :
  arrays (store w) !! l = Some fs ->
  (forall f, f ∈ fs ->
     normalizeFileName env (normalizeFileName env f) = normalizeFileName env f) ->
  normalizeFileNames env l (normalizeFileNames env l w).2
  = normalizeFileNames env l w.
Proof.
  intros Hl Hidem. rewrite (normalizeFileNames_run env l fs w Hl). cbn [snd].
  rewrite (normalizeFileNames_run env l (normalizeFileName env <$> fs));
    [|cbn [store set_arrays arrays]; apply lookup_insert_eq].
  cbn [store trace]. rewrite set_arrays_set_arrays.
  assert (Hsame : normalizeFileName env <$> (normalizeFileName env <$> fs)
                  = normalizeFileName env <$> fs).
  { rewrite <- list_fmap_compose. apply list_fmap_ext.
    intros i f Hf. cbn. apply Hidem. eapply list_elem_of_lookup_2, Hf. }
  now rewrite Hsame.
Qed.

(** ** [getDefaultLibFilename] *)


End MoreConverterFacts.

(** ** [getParameters] *)

(** X16. [getParameters] keeps the parameters of the parent class, in
their order, and puts its own five after them; the names of the result are
pairwise distinct exactly when those of the parent are and none of them is
one of the five. Of the five only [externalPattern] comes without a help
text (its description is stored under [key]), and the default value of
[mode] is one of the values of its map. *)
Theorem getParameters_names (inherited : list IParameter.t) :
  let own := drop (length inherited) (getParameters inherited) in
  let names :=
    ["name"; "mode"; "externalPattern"; "includeDeclarations";
     "excludeExternals"] in
  inherited `prefix_of` getParameters inherited /\
  IParameter.name <$> own = names /\
  (NoDup (IParameter.name <$> getParameters inherited)
   <-> NoDup (IParameter.name <$> inherited) /\
       forall n, n ∈ names -> n ∉ IParameter.name <$> inherited) /\
  Forall (fun p =>
            (IParameter.help p = None <-> IParameter.name p = "externalPattern") /\
            (IParameter.key p = None <-> IParameter.name p <> "externalPattern") /\
            forall d, IParameter.defaultValue p = Some d ->
                      d ∈ (IParameter.map p).*2)
    own.
Proof.
  cbv zeta. unfold getParameters. rewrite drop_app_length.
  split; [now eexists|]. split; [reflexivity|]. split.
  - rewrite fmap_app, NoDup_app.
    set (names := IParameter.name <$> _ :: _).
    assert (Hnames : NoDup names)
      by (apply (bool_decide_unpack _); vm_compute; reflexivity).
    split.
    + intros (Hnd & Hdisj & _). split; [exact Hnd|].
      intros n Hn Hin. exact (Hdisj n Hin Hn).
    + intros (Hnd & Hdisj). split; [exact Hnd|]. split; [|exact Hnames].
      intros n Hin Hn. exact (Hdisj n Hn Hin).
  - repeat (apply Forall_cons_2; [|]); [..|apply Forall_nil_2];
      cbn [IParameter.help IParameter.name IParameter.key
           IParameter.defaultValue IParameter.map];
      (split;
       [ split; intros H; first [discriminate H | reflexivity]
       | split;
         [ split; intros H;
             first [discriminate H | reflexivity | discriminate | now destruct H]
         | intros d H; first [discriminate H | injection H as <-; set_solver] ] ]).
Qed.

(** ** The further properties on the small installations *)

(** X2, witness: with a front-end that cannot create the program, the
conversion throws its exception after the creation was tried, and the
array is normalized. *)
Lemma convert_createProgram_failure_witness :
  (convert failingFrontEndEnv 1%positive freshWorld).1 = Throw frontEndFailure /\
  trace (convert failingFrontEndEnv 1%positive freshWorld).2
  = [ACreateProgram ["src/a.ts"; "b.ts"]] /\
  arrays (store (convert failingFrontEndEnv 1%positive freshWorld).2) !! 1%positive
  = Some ["src/a.ts"; "b.ts"].
Proof.
  destruct (convert_createProgram_failure failingFrontEndEnv 1%positive demoFiles
              freshWorld frontEndFailure
              (set_arrays <[1%positive := normalizeFileName failingFrontEndEnv
                                            <$> demoFiles]> (store freshWorld))
              (lookup_demoWorld _ _) eq_refl)
    as (Hrun & _ & Harr).
  split; [now rewrite Hrun|]. split; [now rewrite Hrun|].
  apply Harr. apply lookup_insert_eq.
Defined.

(** X3, witness: in the conversion with the plugin that fails at the
resolve-begin event, the event is dispatched after begin and the visits of
the two files. *)
Lemma resolve_begins_after_all_visits_witness :
  exists t,
    trace (convert failingPluginEnv 1%positive freshWorld).2
    = ACreateProgram ["src/a.ts"; "b.ts"] :: t /\
    (ADispatch EVENT_RESOLVE_BEGIN None None ∈ t ->
     [ADispatch EVENT_BEGIN None None;
      AVisit ("src/a.ts", "export var x;");
      AVisit ("b.ts", "export var x;")] `prefix_of` t).
Proof.
  exact (resolve_begins_after_all_visits failingPluginEnv 1%positive demoFiles
           freshWorld _ _ (lookup_demoWorld _ _) eq_refl).
Defined.

(** X4, witness: the conversion of the two demo files. *)
Lemma convert_dispatches_general_events_only_witness :
  exists t,
    trace (convert quietEnv 1%positive freshWorld).2
    = ACreateProgram ["src/a.ts"; "b.ts"] :: t /\
    Forall ownAction t.
Proof.
  exact (convert_dispatches_general_events_only quietEnv 1%positive demoFiles
           freshWorld (lookup_demoWorld _ _)).
Defined.

(** X5, witness: the project in the store has no name before the
conversion; the project of the result has the name of the settings, which
the visitor and the listeners of the demo keep. *)
Lemma convert_project_invariant_witness :
  exists res,
    (convert quietEnv 1%positive twoReflections).1 = Ok res /\
    project_name (project res) = Some "demo".
Proof.
  eexists. split; [vm_compute; reflexivity|].
  apply (convert_project_invariant quietEnv
           (fun p => project_name p = Some "demo") 1%positive demoFiles
           twoReflections _ (convert quietEnv 1%positive twoReflections).2
           (lookup_demoWorld _ _)).
  - reflexivity.
  - intros sf s H. exact H.
  - intros event a s H. exact H.
  - vm_compute. reflexivity.
Defined.

(** X17, witness: the conversion of the two demo files returned. *)
Lemma convert_returned_witness :
  exists res w' resolved,
    convert quietEnv 1%positive freshWorld = (Ok res, w') /\
    errors res = ["a.ts(1,1): error TS1005"; "a.ts(2,3): error TS2322"] /\
    trace w'
    = ACreateProgram ["src/a.ts"; "b.ts"]
        :: conversionTrace
             [("src/a.ts", "export var x;"); ("b.ts", "export var x;")] resolved.
Proof.
  destruct (convert quietEnv 1%positive freshWorld) as [[res|e] w'] eqn:E;
    [|vm_compute in E; discriminate E].
  destruct (convert_returned quietEnv 1%positive demoFiles freshWorld res w'
              (lookup_demoWorld _ _) E)
    as (program & s1 & resolved & Hp & Herr & _ & Ht).
  exists res, w', resolved. split; [reflexivity|].
  injection Hp as <- _. split; [exact Herr | exact Ht].
Defined.

(** X6, witness: the index holds the reflections 1 and 2 and inherits the
enumerable name [extend]; the loop dispatches the resolve event for 1 and
for 2, and for nothing else. *)
Lemma resolveReflections_dispatches_own_entries_witness :
  exists w' t,
    resolveReflections quietEnv inheritingWorld = (Ok tt, w') /\
    trace w' = t /\
    t ≡ₚ [ADispatch EVENT_RESOLVE (Some "2") (Some "2");
          ADispatch EVENT_RESOLVE (Some "1") (Some "1")].
Proof.
  destruct (resolveReflections_dispatches_own_entries quietEnv inheritingWorld)
    as (w' & t & Hrun & _ & Ht & Hperm).
  - intros a s. exact I.
  - intros a s. reflexivity.
  - exists w', t. split; [exact Hrun|]. split; [exact Ht|].
    rewrite Hperm.
    assert (Hentries :
      map_to_list (own (reflections (current_project (store inheritingWorld))))
      = [("1", "1"); ("2", "2")]) by (vm_compute; reflexivity).
    rewrite Hentries. apply Permutation_swap.
Defined.

(** X10, witness: the system has no current directory. *)
Lemma getCurrentDirectory_failure_witness :
  sys_getCurrentDirectory noCwdEnv (store freshWorld)
  = (Throw systemFailure, store freshWorld) /\
  trace (getCurrentDirectory noCwdEnv freshWorld).2 = [ASysGetCurrentDirectory].
Proof.
  exact (getCurrentDirectory_failure noCwdEnv freshWorld systemFailure
           {| store := store freshWorld; trace := [ASysGetCurrentDirectory] |}
           eq_refl).
Defined.

(** X13, witness: the array of the demo, normalized. *)
Lemma normalizeFileNames_frame_witness :
  (normalizeFileNames quietEnv 1%positive freshWorld).1 = Ok tt /\
  length <$> arrays (store (normalizeFileNames quietEnv 1%positive freshWorld).2)
               !! 1%positive
  = Some 2%nat /\
  trace (normalizeFileNames quietEnv 1%positive freshWorld).2 = [].
Proof.
  destruct (normalizeFileNames_frame quietEnv 1%positive demoFiles freshWorld
              (lookup_demoWorld _ _))
    as (Hok & Hlen & _ & _ & _ & _ & Ht).
  split; [exact Hok|]. split; [exact Hlen | exact Ht].
Defined.

(** X14, witness: replacing backslashes by slashes a second time changes
nothing. *)
Lemma normalizeFileNames_twice_witness :
  normalizeFileNames slashesOnlyEnv 1%positive
    (normalizeFileNames slashesOnlyEnv 1%positive freshWorld).2
  = normalizeFileNames slashesOnlyEnv 1%positive freshWorld.
Proof.
  apply (normalizeFileNames_twice slashesOnlyEnv 1%positive demoFiles freshWorld
           (lookup_demoWorld _ _)).
  intros f Hf. unfold demoFiles in Hf.
  apply elem_of_cons in Hf as [->|Hf]; [reflexivity|].
  apply elem_of_cons in Hf as [->|Hf]; [reflexivity|].
  now apply not_elem_of_nil in Hf.
Defined.
